(** * DatabaseManager: a key-value adapter over IndexedDB

    A shallow embedding of [DatabaseManager.js].  The class keeps a
    connection handle ([db]), a flag ([ready]) and its configuration, and
    turns each of its operations into one transaction on the host's
    IndexedDB engine.  The adapter's code is embedded function by function;
    the host engine, which the repository does not contain, is embedded as
    far as the adapter drives it: one database with named object stores,
    in-line keys, requests that are placed synchronously and answered by
    events. *)

From Stdlib Require Import ZArith Ascii String List Bool Lia.
From stdpp Require Import base option list strings gmap.

Set Warnings "-register-all".

Open Scope Z_scope.
Open Scope string_scope.

(** ** JavaScript values *)

(** The values the adapter stores and returns.  Numbers are the integral
    ones and NaN; objects are plain property lists in insertion order. *)
Inductive JsValue : Type :=
| JUndefined
| JNull
| JBool (b : bool)
| JNum (n : Z)
| JNaN
| JStr (s : string)
| JObj (props : list (string * JsValue))
| JArr (items : list JsValue).

(** [typeof v] *)
Definition typeof (v : JsValue) : string :=
  match v with
  | JUndefined => "undefined"
  | JNull => "object"
  | JBool _ => "boolean"
  | JNum _ | JNaN => "number"
  | JStr _ => "string"
  | JObj _ | JArr _ => "object"
  end.

(** ToBoolean: [undefined], [null], [false], [0], [NaN] and [''] are falsy,
    every object and array is truthy. *)
Definition truthy (v : JsValue) : bool :=
  match v with
  | JUndefined | JNull | JNaN => false
  | JBool b => b
  | JNum n => negb (Z.eqb n 0)
  | JStr s => negb (String.eqb s "")
  | JObj _ | JArr _ => true
  end.

(** [a && b] and [a || b] on values (the right operand is pure here). *)
Definition js_and (a b : JsValue) : JsValue := if truthy a then b else a.
Definition js_or (a b : JsValue) : JsValue := if truthy a then a else b.

(** [o[name]]: an own property of an object, [undefined] otherwise. *)
Fixpoint own_property (props : list (string * JsValue)) (name : string) : option JsValue :=
  match props with
  | [] => None
  | (p, v) :: rest => if String.eqb p name then Some v else own_property rest name
  end.

Definition get_prop (o : JsValue) (name : string) : JsValue :=
  match o with
  | JObj props => default JUndefined (own_property props name)
  | _ => JUndefined
  end.

(** ** Strings: [String.prototype.trim] *)

(** WhiteSpace and LineTerminator code units below 256: TAB, LF, VT, FF, CR,
    SP and NBSP. *)
Definition is_white_space (c : ascii) : bool :=
  match N_of_ascii c with
  | 9 | 10 | 11 | 12 | 13 | 32 | 160 => true
  | _ => false
  end%N.

Fixpoint trimStart (s : string) : string :=
  match s with
  | EmptyString => EmptyString
  | String c rest => if is_white_space c then trimStart rest else s
  end.

Fixpoint trimEnd (s : string) : string :=
  match s with
  | EmptyString => EmptyString
  | String c rest =>
      match trimEnd rest with
      | EmptyString => if is_white_space c then EmptyString else String c EmptyString
      | kept => String c kept
      end
  end.

Definition trim (s : string) : string := trimEnd (trimStart s).

Fixpoint all_white_space (s : string) : bool :=
  match s with
  | EmptyString => true
  | String c rest => is_white_space c && all_white_space rest
  end.

(** ** IndexedDB keys *)

(** Valid keys of the value universe above: numbers other than NaN, strings,
    and arrays of valid keys. *)
Inductive IdbKey : Type :=
| KNum (n : Z)
| KStr (s : string)
| KArr (items : list IdbKey).

(** "Convert a value to a key": [None] when the value is not a valid key. *)
Fixpoint to_key (v : JsValue) : option IdbKey :=
  match v with
  | JNum n => Some (KNum n)
  | JStr s => Some (KStr s)
  | JArr items =>
      option_map KArr
        ((fix all (vs : list JsValue) : option (list IdbKey) :=
            match vs with
            | [] => Some []
            | x :: rest =>
                match to_key x, all rest with
                | Some k, Some ks => Some (k :: ks)
                | _, _ => None
                end
            end) items)
  | _ => None
  end.

Fixpoint key_to_value (k : IdbKey) : JsValue :=
  match k with
  | KNum n => JNum n
  | KStr s => JStr s
  | KArr items => JArr (List.map key_to_value items)
  end.

(** "Compare two keys": Number < String < Array; numbers by value, strings
    by code units, arrays element by element and then by length. *)
Fixpoint key_compare (a b : IdbKey) : comparison :=
  match a, b with
  | KNum x, KNum y => Z.compare x y
  | KNum _, _ => Lt
  | KStr _, KNum _ => Gt
  | KStr x, KStr y => String.compare x y
  | KStr _, KArr _ => Lt
  | KArr xs, KArr ys =>
      (fix items (xs ys : list IdbKey) : comparison :=
         match xs, ys with
         | [], [] => Eq
         | [], _ :: _ => Lt
         | _ :: _, [] => Gt
         | x :: xs', y :: ys' =>
             match key_compare x y with
             | Eq => items xs' ys'
             | c => c
             end
         end) xs ys
  | KArr _, _ => Gt
  end.

Definition key_eqb (a b : IdbKey) : bool :=
  match key_compare a b with Eq => true | _ => false end.

(** ** The host engine: object stores *)

(** An object store with in-line keys: its key path and its records, kept
    in ascending key order.  A record is the stored value together with the
    key the key path extracted from it. *)
Record ObjectStore : Type := mkStore {
  os_keyPath : string;
  os_records : list (IdbKey * JsValue)
}.

(** A key path is a dot-separated list of identifiers. *)
Fixpoint split_dots (s : string) : list string :=
  match s with
  | EmptyString => [EmptyString]
  | String c rest =>
      if Ascii.eqb c "."%char then EmptyString :: split_dots rest
      else match split_dots rest with
           | [] => [String c EmptyString]
           | h :: t => String c h :: t
           end
  end.

(** One step per identifier: [length] of a string or an array, an own
    property of an object that is not [undefined], failure otherwise. *)
Fixpoint walk_path (ids : list string) (v : JsValue) : option JsValue :=
  match ids with
  | [] => Some v
  | id :: rest =>
      match v with
      | JStr s =>
          if String.eqb id "length"
          then walk_path rest (JNum (Z.of_nat (String.length s)))
          else None
      | JArr items =>
          if String.eqb id "length"
          then walk_path rest (JNum (Z.of_nat (List.length items)))
          else None
      | JObj props =>
          match own_property props id with
          | Some JUndefined | None => None
          | Some w => walk_path rest w
          end
      | _ => None
      end
  end.

(** An identifier of a key path: a letter, [$] or [_], followed by letters,
    digits, [$] and [_] (the letters being those among the code units
    below 256). *)
Definition identifier_start (c : ascii) : bool :=
  let n := N_of_ascii c in
  (N.leb 65 n && N.leb n 90) || (N.leb 97 n && N.leb n 122)
  || N.eqb n 36 || N.eqb n 95
  || N.eqb n 170 || N.eqb n 181 || N.eqb n 186
  || (N.leb 192 n && N.leb n 214) || (N.leb 216 n && N.leb n 246) || N.leb 248 n.

Definition identifier_part (c : ascii) : bool :=
  identifier_start c || (N.leb 48 (N_of_ascii c) && N.leb (N_of_ascii c) 57).

Fixpoint identifier_rest (s : string) : bool :=
  match s with
  | EmptyString => true
  | String c rest => identifier_part c && identifier_rest rest
  end.

Definition is_identifier (s : string) : bool :=
  match s with
  | EmptyString => false
  | String c rest => identifier_start c && identifier_rest rest
  end.

(** A valid key path: the empty string, or identifiers separated by
    periods. *)
Definition valid_key_path (path : string) : bool :=
  String.eqb path "" || forallb is_identifier (split_dots path).

(** "Evaluate a key path on a value": the empty path is the value itself. *)
Definition evaluate_key_path (path : string) (v : JsValue) : option JsValue :=
  if String.eqb path "" then Some v else walk_path (split_dots path) v.

(** "Extract a key from a value using a key path". *)
Definition extract_key (path : string) (v : JsValue) : option IdbKey :=
  match evaluate_key_path path v with
  | Some w => to_key w
  | None => None
  end.

(** The record with a key, as a request's result: [undefined] when absent. *)
Fixpoint records_get (recs : list (IdbKey * JsValue)) (k : IdbKey) : JsValue :=
  match recs with
  | [] => JUndefined
  | (k', v) :: rest => if key_eqb k k' then v else records_get rest k
  end.

(** Store a record at its place in key order, replacing one of equal key. *)
Fixpoint records_put (recs : list (IdbKey * JsValue)) (k : IdbKey) (v : JsValue)
  : list (IdbKey * JsValue) :=
  match recs with
  | [] => [(k, v)]
  | (k', v') :: rest =>
      match key_compare k k' with
      | Lt => (k, v) :: recs
      | Eq => (k, v) :: rest
      | Gt => (k', v') :: records_put rest k v
      end
  end.

Definition records_delete (recs : list (IdbKey * JsValue)) (k : IdbKey)
  : list (IdbKey * JsValue) :=
  List.filter (fun r => negb (key_eqb k (fst r))) recs.

(** ** The host engine: requests, events, exceptions *)

Inductive Mode : Type := readonly | readwrite.

(** The requests the adapter places on an object store. *)
Inductive Request : Type :=
| req_get (key : JsValue)
| req_put (value : JsValue)
| req_delete (key : JsValue)
| req_getAllKeys
| req_getAll
| req_clear.

(** Every call the adapter makes into the engine, in program order. *)
Inductive EngineCall : Type :=
| call_transaction (store : string) (mode : Mode)
| call_objectStore (store : string)
| call_request (r : Request)
| call_commit.

(** The events the engine fires at a transaction and its requests. *)
Inductive EngineEvent : Type :=
| ev_success (r : Request) (result : JsValue)
| ev_error (r : Request)
| ev_complete
| ev_abort.

(** What the code throws or rejects with: [new Error(message, {cause})],
    a [TypeError] of the language, or a [DOMException] of the engine. *)
Inductive Cause : Type :=
| cause_open_error
| cause_event (e : EngineEvent).

Inductive JsError : Type :=
| Error (message : string) (cause : option Cause)
| TypeError (message : string)
| DOMException (name : string).

Inductive Promise : Type :=
| Pending
| Resolved (v : JsValue)
| Rejected (e : JsError).

(** [resolve] and [reject] settle a promise once; later calls are ignored. *)
Definition settle (p : Promise) (by_handler : option Promise) : Promise :=
  match p with
  | Pending => default Pending by_handler
  | _ => p
  end.

(** The database a connection refers to.  [healthy] is the host's ability
    to carry requests out: an unhealthy host answers every request with an
    error event and aborts the transaction.  [current_version] is 0 before
    the database exists. *)
Record Host : Type := mkHost {
  stores : gmap string ObjectStore;
  current_version : Z;
  healthy : bool
}.

Definition with_stores (h : Host) (s : gmap string ObjectStore) : Host :=
  {| stores := s; current_version := current_version h; healthy := healthy h |}.

(** A request's effect on the store's records and its result. *)
Definition apply_request (os : ObjectStore) (r : Request) : JsValue * ObjectStore :=
  let recs := os_records os in
  let keep := mkStore (os_keyPath os) in
  match r with
  | req_get key =>
      (match to_key key with Some k => records_get recs k | None => JUndefined end, os)
  | req_put value =>
      match extract_key (os_keyPath os) value with
      | Some k => (key_to_value k, keep (records_put recs k value))
      | None => (JUndefined, os)
      end
  | req_delete key =>
      match to_key key with
      | Some k => (JUndefined, keep (records_delete recs k))
      | None => (JUndefined, os)
      end
  | req_getAllKeys => (JArr (List.map (fun r => key_to_value (fst r)) recs), os)
  | req_getAll => (JArr (List.map snd recs), os)
  | req_clear => (JUndefined, keep [])
  end.

(** The exception a request raises when it is placed, if any. *)
Definition request_exception (os : ObjectStore) (mode : Mode) (r : Request) : option JsError :=
  match r with
  | req_get key =>
      match to_key key with Some _ => None | None => Some (DOMException "DataError") end
  | req_put value =>
      match mode with
      | readonly => Some (DOMException "ReadOnlyError")
      | readwrite =>
          match extract_key (os_keyPath os) value with
          | Some _ => None
          | None => Some (DOMException "DataError")
          end
      end
  | req_delete key =>
      match mode with
      | readonly => Some (DOMException "ReadOnlyError")
      | readwrite =>
          match to_key key with Some _ => None | None => Some (DOMException "DataError") end
      end
  | req_getAllKeys | req_getAll => None
  | req_clear =>
      match mode with
      | readonly => Some (DOMException "ReadOnlyError")
      | readwrite => None
      end
  end.

(** ** Code that runs against the engine *)

(** A transaction as the engine sees it: its store, its mode and the
    requests placed in it so far. *)
Record Txn : Type := mkTxn {
  txn_store : string;
  txn_mode : Mode;
  txn_queue : list Request
}.

(** What a promise executor leaves behind: the calls it made and the
    transaction it opened. *)
Record ExecState : Type := mkExec {
  calls : list EngineCall;
  active : option Txn
}.

(** Synchronous code over the engine: it reads the host, records its calls
    and either returns or throws. *)
Definition Exec (A : Type) : Type := Host -> ExecState -> (JsError + A) * ExecState.

Definition ret {A} (a : A) : Exec A := fun _ st => (inr a, st).
Definition throw {A} (e : JsError) : Exec A := fun _ st => (inl e, st).
Definition bind {A B} (m : Exec A) (k : A -> Exec B) : Exec B :=
  fun h st =>
    match m h st with
    | (inl e, st') => (inl e, st')
    | (inr a, st') => k a h st'
    end.
Definition called (c : EngineCall) : Exec unit :=
  fun _ st => (inr tt, mkExec (calls st ++ [c]) (active st)).
Definition the_host : Exec Host := fun h st => (inr h, st).

Declare Scope exec_scope.
Delimit Scope exec_scope with exec.
Notation "x <- m ;; k" := (bind m (fun x => k))
  (at level 100, m at next level, right associativity) : exec_scope.
Notation "m ;; k" := (bind m (fun _ => k))
  (at level 100, right associativity) : exec_scope.
Open Scope exec_scope.

(** Handles the code holds. *)
Record IDBDatabase : Type := mkConn { conn_name : string; conn_version : Z }.
Record IDBTransaction : Type := mkTx { tx_store : string; tx_mode : Mode }.
Record IDBObjectStore : Type := mkOs { h_name : string; h_mode : Mode; h_store : ObjectStore }.

(** [db.transaction(name, mode)]: NotFoundError when the database has no
    object store of that name. *)
Definition db_transaction (conn : IDBDatabase) (name : string) (mode : Mode)
  : Exec IDBTransaction :=
  called (call_transaction name mode) ;;
  h <- the_host ;;
  match stores h !! name with
  | None => throw (DOMException "NotFoundError")
  | Some _ =>
      fun _ st => (inr (mkTx name mode), mkExec (calls st) (Some (mkTxn name mode [])))
  end.

(** [transaction.objectStore(name)]: the store must be in the scope. *)
Definition tx_objectStore (t : IDBTransaction) (name : string) : Exec IDBObjectStore :=
  called (call_objectStore name) ;;
  h <- the_host ;;
  match stores h !! name with
  | Some os =>
      if String.eqb name (tx_store t) then ret (mkOs name (tx_mode t) os)
      else throw (DOMException "NotFoundError")
  | None => throw (DOMException "NotFoundError")
  end.

(** Placing a request: it joins the transaction's queue unless it raises. *)
Definition os_request (s : IDBObjectStore) (r : Request) : Exec unit :=
  called (call_request r) ;;
  match request_exception (h_store s) (h_mode s) r with
  | Some e => throw e
  | None =>
      fun _ st =>
        (inr tt,
         mkExec (calls st)
           (match active st with
            | Some t => Some (mkTxn (txn_store t) (txn_mode t) (txn_queue t ++ [r]))
            | None => None
            end))
  end.

Definition os_get (s : IDBObjectStore) (key : JsValue) := os_request s (req_get key).
Definition os_put (s : IDBObjectStore) (value : JsValue) := os_request s (req_put value).
Definition os_delete (s : IDBObjectStore) (key : JsValue) := os_request s (req_delete key).
Definition os_getAllKeys (s : IDBObjectStore) := os_request s req_getAllKeys.
Definition os_getAll (s : IDBObjectStore) := os_request s req_getAll.
Definition os_clear (s : IDBObjectStore) := os_request s req_clear.
Definition tx_commit (t : IDBTransaction) : Exec unit := called call_commit.

(** ** How the host answers a transaction *)

(** The events of a transaction in the order they fire, each with the
    database as other transactions see it at that moment.  Requests run in
    order on the transaction's own view of the store; the view becomes the
    store when the transaction completes. *)
Fixpoint answer (h : Host) (name : string) (mode : Mode) (view : ObjectStore)
    (queue : list Request) : list (EngineEvent * Host) :=
  match queue with
  | [] =>
      [(ev_complete,
        match mode with
        | readwrite => with_stores h (<[name := view]> (stores h))
        | readonly => h
        end)]
  | r :: rest =>
      if healthy h then
        let '(result, view') := apply_request view r in
        (ev_success r result, h) :: answer h name mode view' rest
      else [(ev_error r, h); (ev_abort, h)]
  end.

Definition timeline (h : Host) (t : option Txn) : list (EngineEvent * Host) :=
  match t with
  | None => []
  | Some t =>
      match stores h !! txn_store t with
      | Some os => answer h (txn_store t) (txn_mode t) os (txn_queue t)
      | None => []
      end
  end.

(** The callbacks an operation registers.  An error event fires at the
    request and then bubbles to its transaction. *)
Record Handlers : Type := mkHandlers {
  request_onsuccess : option (EngineEvent -> Promise);
  request_onerror : option (EngineEvent -> Promise);
  txn_oncomplete : option (EngineEvent -> Promise);
  txn_onerror : option (EngineEvent -> Promise)
}.

Definition call_handler (f : option (EngineEvent -> Promise)) (e : EngineEvent)
  : option Promise :=
  match f with Some f => Some (f e) | None => None end.

Definition fire (hs : Handlers) (e : EngineEvent) (p : Promise) : Promise :=
  match e with
  | ev_success _ _ => settle p (call_handler (request_onsuccess hs) e)
  | ev_error _ =>
      settle (settle p (call_handler (request_onerror hs) e))
             (call_handler (txn_onerror hs) e)
  | ev_complete => settle p (call_handler (txn_oncomplete hs) e)
  | ev_abort => p
  end.

(** [event.target.result] *)
Definition target_result (e : EngineEvent) : JsValue :=
  match e with
  | ev_success _ result => result
  | _ => JUndefined
  end.

(** One event of an operation's run: the event, the database visible once
    it has fired, and the operation's promise after its handlers ran. *)
Record Step : Type := mkStep {
  step_event : EngineEvent;
  step_host : Host;
  step_promise : Promise
}.

Fixpoint deliver (hs : Handlers) (p : Promise) (tl : list (EngineEvent * Host)) : list Step :=
  match tl with
  | [] => []
  | (e, h) :: rest =>
      let p' := fire hs e p in
      mkStep e h p' :: deliver hs p' rest
  end.

(** What a call of an operation amounts to. *)
Inductive Outcome : Type :=
| Thrown (e : JsError)
    (* the async body threw before its first await *)
| Waiting
    (* _waitForDB is still polling *)
| Ran (start : Promise) (made : list EngineCall) (steps : list Step).
    (* the executor ran: the promise it left, its calls, the events *)

(** [new Promise(executor)] followed by the engine's answer: an executor
    that throws rejects the promise, the transaction it opened runs on. *)
Definition run (h : Host) (executor : Exec unit) (hs : Handlers) : Outcome :=
  let '(r, st) := executor h (mkExec [] None) in
  let p := match r with inl e => Rejected e | inr _ => Pending end in
  Ran p (calls st) (deliver hs p (timeline h (active st))).

Definition final_promise (start : Promise) (steps : list Step) : Promise :=
  List.last (List.map step_promise steps) start.

(** The promise an operation returned, once every event has fired. *)
Definition promise_of (o : Outcome) : Promise :=
  match o with
  | Thrown e => Rejected e
  | Waiting => Pending
  | Ran start _ steps => final_promise start steps
  end.

Definition calls_of (o : Outcome) : list EngineCall :=
  match o with
  | Ran _ made _ => made
  | _ => []
  end.

Definition events_of (o : Outcome) : list Step :=
  match o with
  | Ran _ _ steps => steps
  | _ => []
  end.

(** The database after the operation. *)
Definition host_after (h : Host) (o : Outcome) : Host :=
  List.last (List.map step_host (events_of o)) h.

(** ** The host environment of [init] *)

(** A storage factory, tagged with the property it was found under. *)
Inductive IDBFactory : Type := Factory (vendor : string).

(** The property [indexedDB] of [window]: not there at all, or there with
    a value, [None] standing for a falsy one ([undefined], [null]). *)
Inductive Slot : Type :=
| absent
| present (value : option IDBFactory).

(** The four properties of [window] the code looks at.  For the three
    vendor names only the value matters: [None] is a missing or falsy
    property. *)
Record Window : Type := mkWindow {
  indexedDB_slot : Slot;
  mozIndexedDB : option IDBFactory;
  webkitIndexedDB : option IDBFactory;
  msIndexedDB : option IDBFactory
}.

(** [window.indexedDB] as a value: the factory, if it is one. *)
Definition indexedDB (w : Window) : option IDBFactory :=
  match indexedDB_slot w with
  | absent => None
  | present value => value
  end.

(** The global scope: [None] when [typeof window === 'undefined']. *)
Definition Env : Type := option Window.

(** The events of an open request, and of the version-change transaction
    that creates the object store. *)
Inductive OpenEvent : Type :=
| open_success (c : IDBDatabase)
| open_error
| open_upgradeneeded (c : IDBDatabase)
| upgrade_complete (c : IDBDatabase).

(** The largest version an open request can carry: 2^53 - 1. *)
Definition max_version : Z := 9007199254740991.

(** [factory.open(name, v)]: the call itself refuses a version below 1 with
    a TypeError, otherwise it returns the request.  (The call refuses a
    version above [max_version] as well; the statements that depend on it
    take the version within the range.) *)
Definition factory_open (f : IDBFactory) (name : string) (v : Z)
  : JsError + (IDBFactory * string * Z) :=
  if Z.leb v 0 then inl (TypeError "The version provided must not be 0")
  else inr (f, name, v).

(** The events the host fires at [indexedDB.open(name, v)] when no handler
    throws: an error when it cannot open the database or holds a newer
    version, an upgrade followed by success when the database is new or
    older, success alone otherwise. *)
Definition open_script (h : Host) (name : string) (v : Z) : list OpenEvent :=
  let c := mkConn name v in
  if negb (healthy h) then [open_error]
  else if Z.ltb v (current_version h) then [open_error]
  else if Z.ltb (current_version h) v then
    [open_upgradeneeded c; upgrade_complete c; open_success c]
  else [open_success c].

(** [createObjectStore(name, {keyPath})] inside the upgrade: a SyntaxError
    when the key path is not valid, a ConstraintError when the store
    exists. *)
Definition createObjectStore (h : Host) (c : IDBDatabase) (name path : string)
  : JsError + Host :=
  if negb (valid_key_path path) then inl (DOMException "SyntaxError")
  else
    match stores h !! name with
    | Some _ => inl (DOMException "ConstraintError")
    | None =>
        inr {| stores := <[name := mkStore path []]> (stores h);
               current_version := conn_version c;
               healthy := healthy h |}
    end.

(** ** The adapter *)

Module DatabaseManager.

(** The fields of an instance. *)
Record t : Type := mk {
  db : option IDBDatabase;
  ready : bool;
  databaseName : string;
  version : Z;
  storeName : string;
  keyPath : string
}.

(** [constructor(databaseName = 'ldb', version = 1, storeName = 's',
    keyPath = 'k')]: an omitted argument is [None]. *)
Definition constructor (databaseName : option string) (version : option Z)
    (storeName keyPath : option string) : t :=
  {| db := None;
     ready := false;
     databaseName := default "ldb" databaseName;
     version := default 1 version;
     storeName := default "s" storeName;
     keyPath := default "k" keyPath |}.

Definition set_db (this : t) (d : option IDBDatabase) : t :=
  mk d (ready this) (databaseName this) (version this) (storeName this) (keyPath this).
Definition set_ready (this : t) (r : bool) : t :=
  mk (db this) r (databaseName this) (version this) (storeName this) (keyPath this).

(** *** init *)

(** The state [init] works on: the instance, the promise it returned, the
    host's database, the open request if one was made, and whether the
    upgrade handler got to register [store.transaction.oncomplete]. *)
Record InitState : Type := mkInit {
  this_of : t;
  promise : Promise;
  host : Host;
  request : option (IDBFactory * string * Z);
  oncomplete : bool
}.

(** [a || b] on optional properties. *)
Definition or_else {A} (a b : option A) : option A :=
  match a with Some _ => a | None => b end.

(** The executor of [init]'s promise. *)
Definition init (env : Env) (this : t) (h : Host) : InitState :=
  let win := default (mkWindow absent None None None) env in
  let indexedDB :=
    or_else (or_else (or_else (indexedDB win) (mozIndexedDB win)) (webkitIndexedDB win))
            (msIndexedDB win) in
  if bool_decide (is_Some env) && negb (bool_decide (is_Some indexedDB)) then
    mkInit this (Rejected (Error "IndexedDB not supported" None)) h None false
  else
    match indexedDB with
    | None =>
        (* indexedDB.open on undefined *)
        mkInit this
          (Rejected (TypeError "Cannot read properties of undefined (reading 'open')"))
          h None false
    | Some factory =>
        match factory_open factory (databaseName this) (version this) with
        | inl e => mkInit this (Rejected e) h None false
        | inr request => mkInit this Pending h (Some request) false
        end
    end.

(** The handlers [init] puts on its request. *)
Definition init_on (ev : OpenEvent) (st : InitState) : InitState :=
  match request st with
  | None => st
  | Some _ =>
      match ev with
      | open_success c =>
          (* request.onsuccess *)
          let this := set_ready (set_db (this_of st) (Some c)) true in
          mkInit this (settle (promise st) (Some (Resolved JUndefined)))
                 (host st) (request st) (oncomplete st)
      | open_error =>
          (* request.onerror *)
          mkInit (this_of st)
                 (settle (promise st)
                    (Some (Rejected (Error "IndexedDB request error" (Some cause_open_error)))))
                 (host st) (request st) (oncomplete st)
      | open_upgradeneeded c =>
          (* request.onupgradeneeded *)
          let this := set_db (this_of st) None in
          match createObjectStore (host st) c (storeName this) (keyPath this) with
          | inl _ => mkInit this (promise st) (host st) (request st) (oncomplete st)
          | inr h' => mkInit this (promise st) h' (request st) true
          end
      | upgrade_complete c =>
          (* store.transaction.oncomplete *)
          if oncomplete st then
            mkInit (set_db (this_of st) (Some c))
                   (settle (promise st) (Some (Resolved JUndefined)))
                   (host st) (request st) (oncomplete st)
          else st
      end
  end.

(** The upgrade handler threw: it did not get to its last statement. *)
Definition upgrade_threw (ev : OpenEvent) (after : InitState) : bool :=
  match ev with
  | open_upgradeneeded _ => negb (oncomplete after)
  | _ => false
  end.

(** The states [init] goes through as the events fire, the first being the
    one the executor left.  An upgrade handler that throws aborts the
    upgrade: the host then fires error at the request, and nothing else. *)
Fixpoint init_states (st : InitState) (evs : Datatypes.list OpenEvent)
  : Datatypes.list InitState :=
  st :: match evs with
        | [] => []
        | ev :: rest =>
            let st' := init_on ev st in
            if upgrade_threw ev st' then [st'; init_on open_error st']
            else init_states st' rest
        end.

(** [init()] on a host that answers as [open_script] says. *)
Definition init_run (env : Env) (this : t) (h : Host) : Datatypes.list InitState :=
  let st := init env this h in
  match request st with
  | None => [st]
  | Some (_, name, v) => init_states st (open_script h name v)
  end.

Definition init_end (env : Env) (this : t) (h : Host) : InitState :=
  List.last (init_run env this h) (init env this h).

(** *** isSupported *)

(** [typeof window !== 'undefined' && ('indexedDB' in window)] *)
Definition isSupported (env : Env) : bool :=
  match env with
  | None => false
  | Some window =>
      match indexedDB_slot window with
      | absent => false
      | present _ => true
      end
  end.

(** *** _waitForDB *)

(** [clock] is the instance as each tick of the 50 ms timer finds it.  The
    result is the instance when the promise resolves, [None] while no tick
    has found [db] set. *)
Fixpoint poll (clock : Datatypes.list t) : option t :=
  match clock with
  | [] => None
  | this :: later =>
      match db this with
      | Some _ => Some this
      | None => poll later
      end
  end.

Definition _waitForDB (this : t) (clock : Datatypes.list t) : option t :=
  match db this with
  | None => poll clock
  | Some _ => Some this
  end.

(** [this.db.transaction(...)]: a TypeError on a null [db]. *)
Definition this_db_transaction (this : t) (name : string) (mode : Mode)
  : Exec IDBTransaction :=
  match db this with
  | Some conn => db_transaction conn name mode
  | None => throw (TypeError "Cannot read properties of null (reading 'transaction')")
  end.

Definition resolve (v : JsValue) : EngineEvent -> Promise := fun _ => Resolved v.
Definition reject (message : string) : EngineEvent -> Promise :=
  fun event => Rejected (Error message (Some (cause_event event))).

(** An operation after its [await this._waitForDB()]. *)
Definition after_wait (this : t) (clock : Datatypes.list t) (h : Host)
    (executor : t -> Exec unit) (hs : Handlers) : Outcome :=
  match _waitForDB this clock with
  | None => Waiting
  | Some this' => run h (executor this') hs
  end.

(** *** get *)

Definition get_executor (key : JsValue) (this : t) : Exec unit :=
  transaction <- this_db_transaction this "s" readonly ;;
  store <- tx_objectStore transaction "s" ;;
  os_get store key.

Definition get_onsuccess (event : EngineEvent) : Promise :=
  let result :=
    js_or (js_and (target_result event) (get_prop (target_result event) "v")) JNull in
  Resolved result.

Definition get_handlers : Handlers :=
  {| request_onsuccess := Some get_onsuccess;
     request_onerror := Some (reject "Error getting the value from IndexedDB");
     txn_oncomplete := None;
     txn_onerror := None |}.

Definition get (this : t) (clock : Datatypes.list t) (h : Host) (key : JsValue) : Outcome :=
  after_wait this clock h (get_executor key) get_handlers.

(** *** set *)

Definition set_executor (key value : JsValue) (this : t) : Exec unit :=
  txn <- this_db_transaction this "s" readwrite ;;
  store <- tx_objectStore txn "s" ;;
  os_put store (JObj [("k", key); ("v", value)]) ;;
  tx_commit txn.

Definition set_handlers : Handlers :=
  {| request_onsuccess := None;
     request_onerror := None;
     txn_oncomplete := Some (resolve JUndefined);
     txn_onerror := Some (reject "Error setting the value in IndexedDB") |}.

(** [typeof key !== 'string' || key.trim() === ''] *)
Definition invalid_key (key : JsValue) : bool :=
  negb (String.eqb (typeof key) "string")
  || match key with
     | JStr s => String.eqb (trim s) ""
     | _ => true
     end.

(** [value === undefined] *)
Definition is_undefined (v : JsValue) : bool :=
  match v with JUndefined => true | _ => false end.

Definition set (this : t) (clock : Datatypes.list t) (h : Host) (key value : JsValue)
  : Outcome :=
  if invalid_key key then Thrown (Error "Invalid key" None)
  else if is_undefined value then Thrown (Error "Value cannot be undefined" None)
  else after_wait this clock h (set_executor key value) set_handlers.

(** *** delete *)

Definition delete_executor (key : JsValue) (this : t) : Exec unit :=
  txn <- this_db_transaction this "s" readwrite ;;
  store <- tx_objectStore txn "s" ;;
  os_delete store key.

Definition delete_handlers : Handlers :=
  {| request_onsuccess := Some (resolve JUndefined);
     request_onerror := Some (reject "Error deleting the value from IndexedDB");
     txn_oncomplete := None;
     txn_onerror := None |}.

Definition delete (this : t) (clock : Datatypes.list t) (h : Host) (key : JsValue)
  : Outcome :=
  after_wait this clock h (delete_executor key) delete_handlers.

(** *** getAll *)

Definition getAll_executor (this : t) : Exec unit :=
  txn <- this_db_transaction this "s" readonly ;;
  store <- tx_objectStore txn "s" ;;
  os_getAll store.

(** [resolve(event.target.result || [])] *)
Definition result_or_empty (event : EngineEvent) : Promise :=
  Resolved (js_or (target_result event) (JArr [])).

Definition getAll_handlers : Handlers :=
  {| request_onsuccess := Some result_or_empty;
     request_onerror := Some (reject "Error getting all values from IndexedDB");
     txn_oncomplete := None;
     txn_onerror := None |}.

Definition getAll (this : t) (clock : Datatypes.list t) (h : Host) : Outcome :=
  after_wait this clock h getAll_executor getAll_handlers.

(** *** clear *)

Definition clear_executor (this : t) : Exec unit :=
  txn <- this_db_transaction this "s" readwrite ;;
  store <- tx_objectStore txn "s" ;;
  os_clear store.

Definition clear_handlers : Handlers :=
  {| request_onsuccess := Some (resolve JUndefined);
     request_onerror := Some (reject "Error clearing the object store in IndexedDB");
     txn_oncomplete := None;
     txn_onerror := None |}.

Definition clear (this : t) (clock : Datatypes.list t) (h : Host) : Outcome :=
  after_wait this clock h clear_executor clear_handlers.

(** *** setAll *)

(** [entries.forEach(({ key, value }) => store.put({ k: key, v: value }))]:
    destructuring [undefined] or [null] is a TypeError. *)
Fixpoint put_entries (store : IDBObjectStore) (entries : Datatypes.list JsValue) : Exec unit :=
  match entries with
  | [] => ret tt
  | entry :: rest =>
      match entry with
      | JUndefined | JNull => throw (TypeError "Cannot destructure property 'key'")
      | _ =>
          os_put store (JObj [("k", get_prop entry "key"); ("v", get_prop entry "value")]) ;;
          put_entries store rest
      end
  end.

Definition setAll_executor (entries : Datatypes.list JsValue) (this : t) : Exec unit :=
  txn <- this_db_transaction this "s" readwrite ;;
  store <- tx_objectStore txn "s" ;;
  put_entries store entries ;;
  tx_commit txn.

Definition setAll_handlers : Handlers :=
  {| request_onsuccess := None;
     request_onerror := None;
     txn_oncomplete := Some (resolve JUndefined);
     txn_onerror := Some (reject "Error setting values in IndexedDB") |}.

Definition setAll (this : t) (clock : Datatypes.list t) (h : Host)
    (entries : Datatypes.list JsValue) : Outcome :=
  after_wait this clock h (setAll_executor entries) setAll_handlers.

(** *** list *)

Definition list_executor (this : t) : Exec unit :=
  txn <- this_db_transaction this "s" readonly ;;
  store <- tx_objectStore txn "s" ;;
  os_getAllKeys store.

Definition list_handlers : Handlers :=
  {| request_onsuccess := Some result_or_empty;
     request_onerror := Some (reject "Error listing keys from IndexedDB");
     txn_oncomplete := None;
     txn_onerror := None |}.

Definition list (this : t) (clock : Datatypes.list t) (h : Host) : Outcome :=
  after_wait this clock h list_executor list_handlers.

End DatabaseManager.

(** * Notions used in the statements *)

(** Whether a store holds a record with a key. *)
Definition has_key (recs : list (IdbKey * JsValue)) (k : IdbKey) : bool :=
  existsb (fun r => key_eqb k (fst r)) recs.

(** Records in strictly ascending key order. *)
Fixpoint ascending (recs : list (IdbKey * JsValue)) : Prop :=
  match recs with
  | [] => True
  | (k, _) :: rest =>
      match rest with
      | [] => True
      | (k', _) :: _ => key_compare k k' = Lt
      end /\ ascending rest
  end.

(** Code over the engine only ever adds to the calls it has made. *)
Definition appends {A} (m : Exec A) : Prop :=
  forall h st, exists more, calls (snd (m h st)) = (calls st ++ more)%list.

(** A key that is a non-empty string. *)
Definition non_empty_string (key : JsValue) : Prop :=
  exists s, key = JStr s /\ s <> "".

(** The promise of [set] can only be resolved by the completion of its
    transaction. *)
Definition resolved_on_complete (st : Step) : Prop :=
  forall v, step_promise st = Resolved v -> step_event st = ev_complete.

(** [await set(key, value)] and then [get(key)], as the caller sees it. *)
Definition set_then_get (this : DatabaseManager.t) (clock : list DatabaseManager.t)
    (h : Host) (key value : JsValue) : Promise :=
  promise_of
    (DatabaseManager.get this clock
       (host_after h (DatabaseManager.set this clock h key value)) key).

(** ** Instances and hosts used as examples *)

(** A browser with the standard factory, and a host with no database yet. *)
Definition browser : Env :=
  Some (mkWindow (present (Some (Factory "indexedDB"))) None None None).
Definition fresh_host : Host := mkHost ∅ 0 true.

(** [new DatabaseManager()] after [init()] has run to its end. *)
Definition default_instance : DatabaseManager.t :=
  DatabaseManager.constructor None None None None.
Definition default_opened : DatabaseManager.InitState :=
  DatabaseManager.init_end browser default_instance fresh_host.
Definition ready_instance : DatabaseManager.t := DatabaseManager.this_of default_opened.
Definition ready_host : Host := DatabaseManager.host default_opened.

(** The instance of the README: [new DatabaseManager('myDatabase', 1,
    'myStore', 'id')], after [init()]. *)
Definition readme_instance : DatabaseManager.t :=
  DatabaseManager.constructor (Some "myDatabase") (Some 1) (Some "myStore") (Some "id").
Definition readme_opened : DatabaseManager.InitState :=
  DatabaseManager.init_end browser readme_instance fresh_host.

(** The database after [set('username', 'johnDoe')]. *)
Definition one_record_host : Host :=
  host_after ready_host
    (DatabaseManager.set ready_instance [] ready_host (JStr "username") (JStr "johnDoe")).

(** ** The end of the script *)

(** What loading the file leaves behind:
    [if (typeof window !== 'undefined') window.databaseManager = new DatabaseManager()]
    and [if (typeof module !== 'undefined') module.exports = DatabaseManager]. *)
Record Loaded : Type := mkLoaded {
  window_databaseManager : option DatabaseManager.t;
  module_exports : bool
}.

Definition load_script (env : Env) (module_defined : bool) : Loaded :=
  {| window_databaseManager :=
       match env with
       | Some _ => Some (DatabaseManager.constructor None None None None)
       | None => None
       end;
     module_exports := module_defined |}.

(** ** Callers *)

(** A call of one of the seven operations. *)
Inductive Command : Type :=
| cmd_get (key : JsValue)
| cmd_set (key value : JsValue)
| cmd_delete (key : JsValue)
| cmd_list
| cmd_getAll
| cmd_clear
| cmd_setAll (entries : list JsValue).

Definition perform (this : DatabaseManager.t) (clock : list DatabaseManager.t)
    (h : Host) (c : Command) : Outcome :=
  match c with
  | cmd_get key => DatabaseManager.get this clock h key
  | cmd_set key value => DatabaseManager.set this clock h key value
  | cmd_delete key => DatabaseManager.delete this clock h key
  | cmd_list => DatabaseManager.list this clock h
  | cmd_getAll => DatabaseManager.getAll this clock h
  | cmd_clear => DatabaseManager.clear this clock h
  | cmd_setAll entries => DatabaseManager.setAll this clock h entries
  end.

(** A caller that awaits one operation after the other: the database it
    leaves. *)
Fixpoint session (this : DatabaseManager.t) (clock : list DatabaseManager.t)
    (h : Host) (cs : list Command) : Host :=
  match cs with
  | [] => h
  | c :: rest => session this clock (host_after h (perform this clock h c)) rest
  end.

(** ** Notions about the database *)

(** Every store of the database has its records in ascending key order. *)
Definition ordered (h : Host) : Prop :=
  forall name os, stores h !! name = Some os -> ascending (os_records os).

(** Every record of a store sits under the key its key path finds in it. *)
Definition keyed (os : ObjectStore) : Prop :=
  Forall (fun r => extract_key (os_keyPath os) (snd r) = Some (fst r)) (os_records os).

(** The requests of a queue carried out on a store, one after the other. *)
Definition apply_all (view : ObjectStore) (queue : list Request) : ObjectStore :=
  fold_left (fun v r => snd (apply_request v r)) queue view.

(** The database a transaction leaves: its view when it completes, the old
    database when a request fails. *)
Definition answer_final (h : Host) (name : string) (mode : Mode) (view : ObjectStore)
    (queue : list Request) : Host :=
  let committed :=
    match mode with
    | readwrite => with_stores h (<[name := apply_all view queue]> (stores h))
    | readonly => h
    end in
  if healthy h then committed
  else match queue with [] => committed | _ :: _ => h end.

(** The transaction a piece of code has open, if any, is on [name] in
    [mode]. *)
Definition scoped (name : string) (mode : Mode) (t : option Txn) : Prop :=
  match t with
  | None => True
  | Some t => txn_store t = name /\ txn_mode t = mode
  end.

(** Code that opens no transaction but on [name] in [mode]. *)
Definition opens {A} (name : string) (mode : Mode) (m : Exec A) : Prop :=
  forall h st, scoped name mode (active st) -> scoped name mode (active (snd (m h st))).

(** An entry of [setAll] whose put the engine accepts: an object (or any
    value other than [undefined] and [null]) whose [key] is a valid key. *)
Definition entry_key (entry : JsValue) : option IdbKey :=
  match entry with
  | JUndefined | JNull => None
  | _ => to_key (get_prop entry "key")
  end.

(** The record [setAll] puts for an entry. *)
Definition entry_record (entry : JsValue) : JsValue :=
  JObj [("k", get_prop entry "key"); ("v", get_prop entry "value")].

(** The records of a store after the puts of a list of entries, in order. *)
Fixpoint put_all (recs : list (IdbKey * JsValue)) (entries : list JsValue)
  : list (IdbKey * JsValue) :=
  match entries with
  | [] => recs
  | entry :: rest =>
      match entry_key entry with
      | Some k => put_all (records_put recs k (entry_record entry)) rest
      | None => put_all recs rest
      end
  end.

(** The first identifier of a key path. *)
Definition first_identifier (path : string) : string := hd "" (split_dots path).

(** What every operation keeps. *)
Definition kept (h h' : Host) : Prop :=
  (forall name, name <> "s" -> stores h' !! name = stores h !! name)
  /\ current_version h' = current_version h
  /\ healthy h' = healthy h
  /\ (stores h !! "s" = None -> stores h' !! "s" = None)
  /\ (forall os, stores h !! "s" = Some os ->
        exists os', stores h' !! "s" = Some os'
                    /\ os_keyPath os' = os_keyPath os
                    /\ (ascending (os_records os) -> ascending (os_records os'))
                    /\ (keyed os -> keyed os')).

(** [new DatabaseManager(undefined, undefined, undefined, 'id')] after
    [init()]: the store ['s'] keyed by ['id']. *)
Definition id_keyed_opened : DatabaseManager.InitState :=
  DatabaseManager.init_end browser
    (DatabaseManager.constructor None None None (Some "id")) fresh_host.

(** * Properties *)

(** ** Strings and keys *)

Lemma trimStart_white_space s : all_white_space s = true -> trimStart s = "".
Proof.
  induction s as [|c s IH]; simpl; [reflexivity|].
  intros [Hc Hs]%andb_prop. rewrite Hc. auto.
Qed.

Lemma trimEnd_empty s : trimEnd s = "" -> all_white_space s = true.
Proof.
  induction s as [|c s IH]; simpl; [reflexivity|].
  destruct (trimEnd s) eqn:E; [|discriminate].
  destruct (is_white_space c); [|discriminate].
  intros _. simpl. auto.
Qed.

Lemma trimStart_keeps s : all_white_space (trimStart s) = true -> all_white_space s = true.
Proof.
  induction s as [|c s IH]; simpl; [reflexivity|].
  destruct (is_white_space c) eqn:E; simpl; [auto|].
  rewrite E. discriminate.
Qed.

(** A string trims to the empty string exactly when every code unit of it
    is white space. *)
Lemma trim_empty_iff s : trim s = "" <-> all_white_space s = true.
Proof.
  unfold trim. split.
  - intros H. apply trimStart_keeps, trimEnd_empty, H.
  - intros H. rewrite (trimStart_white_space s H). reflexivity.
Qed.

Lemma ascii_compare_refl c : Ascii.compare c c = Eq.
Proof. unfold Ascii.compare. apply N.compare_refl. Qed.

Lemma string_compare_refl s : String.compare s s = Eq.
Proof.
  induction s as [|c s IH]; simpl; [reflexivity|].
  rewrite ascii_compare_refl. exact IH.
Qed.

Lemma key_compare_refl : forall k, key_compare k k = Eq.
Proof.
  fix IH 1. intros [n|s|items]; simpl.
  - apply Z.compare_refl.
  - apply string_compare_refl.
  - induction items as [|x xs IHxs]; [reflexivity|].
    rewrite (IH x). exact IHxs.
Qed.

Lemma key_eqb_refl k : key_eqb k k = true.
Proof. unfold key_eqb. rewrite key_compare_refl. reflexivity. Qed.

Lemma key_compare_antisym : forall a b, key_compare a b = CompOpp (key_compare b a).
Proof.
  fix IH 1. intros [x|x|xs] [y|y|ys]; simpl; try reflexivity.
  - apply Z.compare_antisym.
  - apply String.compare_antisym.
  - revert ys. induction xs as [|x xs IHxs]; intros [|y ys]; try reflexivity.
    rewrite (IH x y). destruct (key_compare y x); simpl; auto.
Qed.

Lemma key_compare_eq : forall a b, key_compare a b = Eq -> a = b.
Proof.
  fix IH 1. intros [x|x|xs] [y|y|ys]; simpl; try discriminate.
  - intros H%Z.compare_eq. congruence.
  - intros H%String.compare_eq_iff. congruence.
  - intros H. f_equal. revert ys H.
    induction xs as [|x xs IHxs]; intros [|y ys]; try discriminate; [reflexivity|].
    destruct (key_compare x y) eqn:E; try discriminate.
    intros H. rewrite (IH x y E). f_equal. apply IHxs, H.
Qed.

Lemma string_compare_lt_trans a b c :
  String.compare a b = Lt -> String.compare b c = Lt -> String.compare a c = Lt.
Proof.
  intros Hab Hbc.
  assert (Hle : String.le a c).
  { transitivity b; unfold String.le, String.leb; [rewrite Hab | rewrite Hbc]; exact I. }
  unfold String.le, String.leb in Hle.
  destruct (String.compare a c) eqn:E; [|reflexivity|contradiction].
  apply String.compare_eq_iff in E as ->.
  rewrite String.compare_antisym, Hbc in Hab. discriminate.
Qed.

Lemma key_compare_lt_trans : forall a b c,
  key_compare a b = Lt -> key_compare b c = Lt -> key_compare a c = Lt.
Proof.
  fix IH 1. intros [x|x|xs] [y|y|ys] [z|z|zs]; simpl; try discriminate; try reflexivity.
  - intros H1 H2. rewrite Z.compare_lt_iff in *. eapply Z.lt_trans; eassumption.
  - apply string_compare_lt_trans.
  - revert ys zs. induction xs as [|x xs IHxs]; intros [|y ys] [|z zs];
      try discriminate; try reflexivity.
    destruct (key_compare x y) eqn:Exy; try discriminate.
    + apply key_compare_eq in Exy as ->.
      destruct (key_compare y z); try discriminate; [apply IHxs | reflexivity].
    + intros _. destruct (key_compare y z) eqn:Eyz; try discriminate.
      * apply key_compare_eq in Eyz as ->. rewrite Exy. reflexivity.
      * rewrite (IH x y z Exy Eyz). reflexivity.
Qed.

(** ** Records of a store *)

(** A put is read back, whatever else the store holds. *)
Lemma records_get_put recs k v : records_get (records_put recs k v) k = v.
Proof.
  induction recs as [|[k' v'] rest IH]; simpl.
  - rewrite key_eqb_refl. reflexivity.
  - destruct (key_compare k k') eqn:E; simpl.
    + rewrite key_eqb_refl. reflexivity.
    + rewrite key_eqb_refl. reflexivity.
    + unfold key_eqb at 1. rewrite E. exact IH.
Qed.

Lemma records_delete_absent recs k : has_key recs k = false -> records_delete recs k = recs.
Proof.
  unfold records_delete, has_key.
  induction recs as [|r rest IH]; simpl; [reflexivity|].
  intros [Hr Hrest]%orb_false_elim. rewrite Hr. simpl. f_equal. auto.
Qed.

Lemma records_delete_gone recs k : has_key (records_delete recs k) k = false.
Proof.
  unfold records_delete, has_key.
  induction recs as [|r rest IH]; simpl; [reflexivity|].
  destruct (key_eqb k (fst r)) eqn:E; simpl; [exact IH|].
  rewrite E. exact IH.
Qed.

Lemma records_delete_idem recs k :
  records_delete (records_delete recs k) k = records_delete recs k.
Proof. apply records_delete_absent, records_delete_gone. Qed.

(** The store's order is kept by every request. *)
Lemma records_put_ascending recs k v : ascending recs -> ascending (records_put recs k v).
Proof.
  induction recs as [|[k1 v1] rest IH]; simpl; [auto|].
  intros [Hhead Hrest].
  destruct (key_compare k k1) eqn:E.
  - apply key_compare_eq in E as ->. simpl. auto.
  - simpl. auto.
  - specialize (IH Hrest). simpl. split; [|exact IH].
    destruct rest as [|[k2 v2] rest']; simpl in *.
    + rewrite key_compare_antisym, E. reflexivity.
    + destruct (key_compare k k2); [ | |exact Hhead];
        rewrite key_compare_antisym, E; reflexivity.
Qed.

Lemma ascending_tail r recs : ascending (r :: recs) -> ascending recs.
Proof. destruct r. simpl. tauto. Qed.

Lemma ascending_drop r r' recs : ascending (r :: r' :: recs) -> ascending (r :: recs).
Proof.
  destruct r as [k v], r' as [k' v']. simpl. intros [H1 [H2 H3]]. split; [|exact H3].
  destruct recs as [|[k2 v2] rest]; [exact I|]. eapply key_compare_lt_trans; eauto.
Qed.

Lemma records_delete_ascending recs k : ascending recs -> ascending (records_delete recs k).
Proof.
  unfold records_delete.
  induction recs as [|r rest IH]; [auto|].
  intros H. simpl. destruct (negb (key_eqb k (fst r))).
  - pose proof (IH (ascending_tail _ _ H)) as IH'.
    clear IH. revert H IH'. induction rest as [|r' rest' IHr]; intros H IH'.
    + destruct r. simpl. auto.
    + simpl in *. destruct (negb (key_eqb k (fst r'))).
      * destruct r, r'. simpl in *. tauto.
      * apply IHr; [eapply ascending_drop, H | exact IH'].
  - apply IH. eapply ascending_tail, H.
Qed.

Lemma apply_request_ascending os r :
  ascending (os_records os) -> ascending (os_records (snd (apply_request os r))).
Proof.
  intros H. destruct r as [key|value|key| | |]; simpl; try exact H.
  - destruct (extract_key _ _); simpl; [apply records_put_ascending|]; exact H.
  - destruct (to_key key); simpl; [apply records_delete_ascending|]; exact H.
  - exact I.
Qed.

(** ** The host *)

Lemma with_stores_same h : with_stores h (stores h) = h.
Proof. destruct h; reflexivity. Qed.

Lemma with_stores_lookup h m name : stores (with_stores h m) !! name = m !! name.
Proof. reflexivity. Qed.

(** Writing back what a store already holds changes nothing. *)
Lemma write_back h name os :
  stores h !! name = Some os -> with_stores h (<[name := os]> (stores h)) = h.
Proof. intros H. rewrite insert_id by exact H. apply with_stores_same. Qed.

Lemma write_twice h name os os' :
  with_stores (with_stores h (<[name := os]> (stores h)))
              (<[name := os']> (stores (with_stores h (<[name := os]> (stores h)))))
  = with_stores h (<[name := os']> (stores h)).
Proof. unfold with_stores; simpl. rewrite insert_insert_eq. reflexivity. Qed.

(** [createObjectStore] with a valid key path and a free name. *)
Lemma createObjectStore_fresh h c name path :
  valid_key_path path = true ->
  stores h !! name = None ->
  createObjectStore h c name path
  = inr {| stores := <[name := mkStore path []]> (stores h);
           current_version := conn_version c;
           healthy := healthy h |}.
Proof. intros Hp Hs. unfold createObjectStore. rewrite Hp, Hs. reflexivity. Qed.

(** It throws on a key path that is not valid and on a name that is taken. *)
Lemma createObjectStore_throws h c name path :
  valid_key_path path = false \/ is_Some (stores h !! name) ->
  exists e, createObjectStore h c name path = inl e.
Proof.
  unfold createObjectStore. intros [-> | [os ->]]; simpl; [eauto|].
  destruct (valid_key_path path); simpl; eauto.
Qed.

(** ** The operations on a connected instance *)

(** The proofs below run an executor symbolically: unfold the operation,
    then alternate computation with the facts about the instance and the
    host. *)
Tactic Notation "run_with" tactic3(facts) :=
  unfold DatabaseManager.get, DatabaseManager.set, DatabaseManager.delete,
    DatabaseManager.list, DatabaseManager.getAll, DatabaseManager.clear,
    DatabaseManager.setAll, DatabaseManager.after_wait, DatabaseManager._waitForDB,
    run, DatabaseManager.get_executor, DatabaseManager.set_executor,
    DatabaseManager.delete_executor, DatabaseManager.list_executor,
    DatabaseManager.getAll_executor, DatabaseManager.clear_executor,
    DatabaseManager.setAll_executor, DatabaseManager.this_db_transaction,
    bind, db_transaction, tx_objectStore, tx_commit, called, the_host,
    os_get, os_put, os_delete, os_getAllKeys, os_getAll, os_clear, os_request;
  repeat first [ progress cbn -[lookup insert] | facts ].

Section Connected.

Variable this : DatabaseManager.t.
Variable clock : list DatabaseManager.t.
Variable h : Host.
Variable c : IDBDatabase.
Variable os : ObjectStore.

Hypothesis connected : DatabaseManager.db this = Some c.
Hypothesis served : stores h !! "s" = Some os.
Hypothesis sound : healthy h = true.

Lemma wait_connected : DatabaseManager._waitForDB this clock = Some this.
Proof. unfold DatabaseManager._waitForDB. rewrite connected. reflexivity. Qed.

Lemma get_run key k :
  to_key key = Some k ->
  DatabaseManager.get this clock h key =
  let e := ev_success (req_get key) (records_get (os_records os) k) in
  Ran Pending
    [call_transaction "s" readonly; call_objectStore "s"; call_request (req_get key)]
    [mkStep e h (DatabaseManager.get_onsuccess e);
     mkStep ev_complete h (DatabaseManager.get_onsuccess e)].
Proof.
  intros Hk.
  run_with (first [rewrite connected | rewrite served | rewrite sound | rewrite Hk]).
  reflexivity.
Qed.

Lemma delete_run key k :
  to_key key = Some k ->
  DatabaseManager.delete this clock h key =
  let os' := mkStore (os_keyPath os) (records_delete (os_records os) k) in
  Ran Pending
    [call_transaction "s" readwrite; call_objectStore "s"; call_request (req_delete key)]
    [mkStep (ev_success (req_delete key) JUndefined) h (Resolved JUndefined);
     mkStep ev_complete (with_stores h (<["s" := os']> (stores h))) (Resolved JUndefined)].
Proof.
  intros Hk.
  run_with (first [rewrite connected | rewrite served | rewrite sound | rewrite Hk]).
  reflexivity.
Qed.

Lemma list_run :
  DatabaseManager.list this clock h =
  let keys := JArr (List.map (fun r => key_to_value (fst r)) (os_records os)) in
  Ran Pending
    [call_transaction "s" readonly; call_objectStore "s"; call_request req_getAllKeys]
    [mkStep (ev_success req_getAllKeys keys) h (Resolved keys);
     mkStep ev_complete h (Resolved keys)].
Proof.
  run_with (first [rewrite connected | rewrite served | rewrite sound]).
  reflexivity.
Qed.

Lemma getAll_run :
  DatabaseManager.getAll this clock h =
  let all := JArr (List.map snd (os_records os)) in
  Ran Pending
    [call_transaction "s" readonly; call_objectStore "s"; call_request req_getAll]
    [mkStep (ev_success req_getAll all) h (Resolved all);
     mkStep ev_complete h (Resolved all)].
Proof.
  run_with (first [rewrite connected | rewrite served | rewrite sound]).
  reflexivity.
Qed.

Lemma clear_run :
  DatabaseManager.clear this clock h =
  Ran Pending
    [call_transaction "s" readwrite; call_objectStore "s"; call_request req_clear]
    [mkStep (ev_success req_clear JUndefined) h (Resolved JUndefined);
     mkStep ev_complete
       (with_stores h (<["s" := mkStore (os_keyPath os) []]> (stores h)))
       (Resolved JUndefined)].
Proof.
  run_with (first [rewrite connected | rewrite served | rewrite sound]).
  reflexivity.
Qed.

(** [set] with a key that passes its check, on a store keyed by [k]. *)
Lemma set_run s value :
  os_keyPath os = "k" ->
  trim s <> "" ->
  value <> JUndefined ->
  DatabaseManager.set this clock h (JStr s) value =
  let record := JObj [("k", JStr s); ("v", value)] in
  let os' := mkStore "k" (records_put (os_records os) (KStr s) record) in
  Ran Pending
    [call_transaction "s" readwrite; call_objectStore "s";
     call_request (req_put record); call_commit]
    [mkStep (ev_success (req_put record) (JStr s)) h Pending;
     mkStep ev_complete (with_stores h (<["s" := os']> (stores h))) (Resolved JUndefined)].
Proof.
  intros Hpath Hkey Hvalue.
  assert (Hinv : DatabaseManager.invalid_key (JStr s) = false).
  { unfold DatabaseManager.invalid_key. simpl. apply String.eqb_neq, Hkey. }
  assert (Hdef : DatabaseManager.is_undefined value = false).
  { destruct value; simpl; congruence. }
  unfold DatabaseManager.set. rewrite Hinv, Hdef.
  run_with (first [rewrite connected | rewrite served | rewrite sound | rewrite Hpath]).
  reflexivity.
Qed.

End Connected.

(** ** The example instances *)

Example default_init_ready :
  DatabaseManager.db ready_instance = Some (mkConn "ldb" 1)
  /\ DatabaseManager.ready ready_instance = true
  /\ DatabaseManager.promise default_opened = Resolved JUndefined
  /\ stores ready_host !! "s" = Some (mkStore "k" [])
  /\ healthy ready_host = true.
Proof. repeat split; reflexivity. Qed.

(** [new DatabaseManager()] and [init()] in a browser, on a sound host
    that has no database yet: when the events have fired the instance is
    connected and the database holds the store ['s'] keyed by ['k'], empty. *)
Lemma init_default_serves h :
  healthy h = true ->
  current_version h = 0 ->
  stores h !! "s" = None ->
  let st := DatabaseManager.init_end browser default_instance h in
  DatabaseManager.db (DatabaseManager.this_of st) = Some (mkConn "ldb" 1)
  /\ DatabaseManager.ready (DatabaseManager.this_of st) = true
  /\ DatabaseManager.promise st = Resolved JUndefined
  /\ stores (DatabaseManager.host st) !! "s" = Some (mkStore "k" [])
  /\ healthy (DatabaseManager.host st) = true.
Proof.
  intros Hh Hv Hs.
  unfold DatabaseManager.init_end, DatabaseManager.init_run, open_script.
  cbn -[lookup insert Z.ltb createObjectStore]. rewrite Hh, Hv.
  cbn -[lookup insert createObjectStore].
  rewrite (createObjectStore_fresh h _ "s" "k" eq_refl Hs).
  cbn -[lookup insert]. rewrite lookup_insert_eq. auto.
Qed.

(** The scenario of the README: set, get, list, clear, list. *)
Example readme_scenario :
  let h1 := host_after ready_host
              (DatabaseManager.set ready_instance [] ready_host (JStr "username") (JStr "johnDoe")) in
  let h2 := host_after h1 (DatabaseManager.clear ready_instance [] h1) in
  promise_of (DatabaseManager.get ready_instance [] h1 (JStr "username")) = Resolved (JStr "johnDoe")
  /\ promise_of (DatabaseManager.list ready_instance [] h1) = Resolved (JArr [JStr "username"])
  /\ promise_of (DatabaseManager.list ready_instance [] h2) = Resolved (JArr []).
Proof. repeat split; reflexivity. Qed.

(** ** set followed by get *)

(** What [get] makes of the record it read. *)
Lemma get_onsuccess_record r k v :
  truthy v = true \/ v = JNull ->
  DatabaseManager.get_onsuccess (ev_success r (JObj [("k", k); ("v", v)])) = Resolved v.
Proof.
  intros [Hv | ->]; unfold DatabaseManager.get_onsuccess, js_or, js_and; simpl.
  - rewrite Hv. reflexivity.
  - reflexivity.
Qed.

(** [set] and then [get], step by step. *)
Lemma set_then_get_returns_aux this clock clock' h c recs s v :
  DatabaseManager.db this = Some c ->
  stores h !! "s" = Some (mkStore "k" recs) ->
  healthy h = true ->
  trim s <> "" ->
  truthy v = true \/ v = JNull ->
  promise_of (DatabaseManager.set this clock h (JStr s) v) = Resolved JUndefined
  /\ promise_of
       (DatabaseManager.get this clock'
          (host_after h (DatabaseManager.set this clock h (JStr s) v)) (JStr s))
     = Resolved v.
Proof.
  intros Hdb Hst Hh Hs Hv.
  assert (Hdef : v <> JUndefined) by (destruct Hv as [Hv | ->]; [intros -> |]; discriminate).
  rewrite (set_run this clock h c _ Hdb Hst Hh s v eq_refl Hs Hdef).
  cbn -[lookup insert]. split; [reflexivity|].
  erewrite (get_run this clock' _ c _ Hdb); cycle 1.
  - rewrite with_stores_lookup. apply lookup_insert_eq.
  - exact Hh.
  - reflexivity.
  - cbn -[lookup insert]. rewrite records_get_put. apply get_onsuccess_record, Hv.
Qed.

(** C1, as amended.  On a connected instance whose database holds the
    object store ['s'] with key path ['k'] and whose host carries requests
    out: for every string key whose trimmed form is not empty and every
    value that is truthy or [null], [set(key, value)] resolves and a
    following [get(key)] resolves with that value. *)
Theorem set_then_get_returns this clock clock' h c recs s v :
  DatabaseManager.db this = Some c ->
  stores h !! "s" = Some (mkStore "k" recs) ->
  healthy h = true ->
  trim s <> "" ->
  truthy v = true \/ v = JNull ->
  let written := DatabaseManager.set this clock h (JStr s) v in
  promise_of written = Resolved JUndefined
  /\ promise_of (DatabaseManager.get this clock' (host_after h written) (JStr s)) = Resolved v.
Proof.
  intros Hdb Hst Hh Hs Hv written. subst written.
  exact (set_then_get_returns_aux this clock clock' h c recs s v Hdb Hst Hh Hs Hv).
Qed.

Lemma set_then_get_returns_witness :
  set_then_get ready_instance [] ready_host (JStr "username") (JStr "johnDoe")
  = Resolved (JStr "johnDoe").
Proof.
  apply (set_then_get_returns ready_instance [] [] ready_host (mkConn "ldb" 1) []
           "username" (JStr "johnDoe")).
  - reflexivity.
  - reflexivity.
  - reflexivity.
  - discriminate.
  - left. reflexivity.
Defined.

(** C1, as stated, fails in two ways: a key of white space only is a
    non-empty string that [set] refuses, and a stored [0] comes back from
    [get] as [null]. *)
Lemma set_then_get_counterexample :
  (" " <> ""
   /\ promise_of (DatabaseManager.set ready_instance [] ready_host (JStr " ") (JNum 1))
      = Rejected (Error "Invalid key" None)
   /\ set_then_get ready_instance [] ready_host (JStr " ") (JNum 1) <> Resolved (JNum 1))
  /\ (promise_of (DatabaseManager.set ready_instance [] ready_host (JStr "k") (JNum 0))
      = Resolved JUndefined
      /\ set_then_get ready_instance [] ready_host (JStr "k") (JNum 0) = Resolved JNull
      /\ set_then_get ready_instance [] ready_host (JStr "k") (JNum 0) <> Resolved (JNum 0)).
Proof.
  repeat split; try reflexivity; try discriminate.
Qed.

(** ** getAll *)

(** On any connected instance [getAll] resolves with the result of the
    engine's [getAll()] as it is: the stored records, in the store's order;
    [list] resolves with their keys in the same order. *)
Lemma getAll_whole_records this clock h c os :
  DatabaseManager.db this = Some c ->
  stores h !! "s" = Some os ->
  healthy h = true ->
  promise_of (DatabaseManager.getAll this clock h)
  = Resolved (JArr (List.map snd (os_records os)))
  /\ promise_of (DatabaseManager.list this clock h)
     = Resolved (JArr (List.map key_to_value (List.map fst (os_records os)))).
Proof.
  intros Hdb Hst Hh. split.
  - rewrite (getAll_run this clock h c os Hdb Hst Hh). reflexivity.
  - rewrite (list_run this clock h c os Hdb Hst Hh). cbn. rewrite List.map_map. reflexivity.
Qed.

(** C2, on the code.  With the one record [{k: 'username', v: 'johnDoe'}]
    stored, [getAll()] resolves with the array holding that whole record,
    not with the array of its [v] field; [get] on the same key resolves with
    the [v] field. *)
Theorem getAll_resolves_with_records :
  promise_of (DatabaseManager.getAll ready_instance [] one_record_host)
  = Resolved (JArr [JObj [("k", JStr "username"); ("v", JStr "johnDoe")]])
  /\ promise_of (DatabaseManager.getAll ready_instance [] one_record_host)
     <> Resolved (JArr [JStr "johnDoe"])
  /\ promise_of (DatabaseManager.get ready_instance [] one_record_host (JStr "username"))
     = Resolved (JStr "johnDoe")
  /\ promise_of (DatabaseManager.list ready_instance [] one_record_host)
     = Resolved (JArr [JStr "username"]).
Proof. repeat split; try reflexivity; discriminate. Qed.

(** ** The object store an operation opens *)

Lemma appends_ret {A} (a : A) : appends (ret a).
Proof. intros h st. exists []. simpl. rewrite app_nil_r. reflexivity. Qed.

Lemma appends_throw {A} e : appends (@throw A e).
Proof. intros h st. exists []. simpl. rewrite app_nil_r. reflexivity. Qed.

Lemma appends_called c : appends (called c).
Proof. intros h st. exists [c]. reflexivity. Qed.

Lemma appends_bind {A B} (m : Exec A) (k : A -> Exec B) :
  appends m -> (forall a, appends (k a)) -> appends (bind m k).
Proof.
  intros Hm Hk h st. unfold bind.
  destruct (Hm h st) as [more Hmore].
  destruct (m h st) as [[e | a] st'] eqn:E; simpl in *.
  - exists more. exact Hmore.
  - destruct (Hk a h st') as [more' Hmore'].
    exists (more ++ more')%list. rewrite Hmore', Hmore, app_assoc. reflexivity.
Qed.

Lemma appends_os_request s r : appends (os_request s r).
Proof.
  unfold os_request. apply appends_bind; [apply appends_called|]. intros _.
  destruct (request_exception _ _ _); [apply appends_throw|].
  intros h st. exists []. simpl. rewrite app_nil_r. reflexivity.
Qed.

Lemma appends_tx_objectStore t name : appends (tx_objectStore t name).
Proof.
  unfold tx_objectStore. apply appends_bind; [apply appends_called|]. intros _.
  intros h st. unfold bind, the_host.
  destruct (stores h !! name); [destruct (String.eqb name (tx_store t))|];
    exists []; simpl; rewrite app_nil_r; reflexivity.
Qed.

Lemma appends_put_entries store entries : appends (DatabaseManager.put_entries store entries).
Proof.
  induction entries as [|entry rest IH]; simpl; [apply appends_ret|].
  destruct entry; try apply appends_throw;
    (apply appends_bind; [apply appends_os_request | intros _; exact IH]).
Qed.

(** The calls of code that starts with [db.transaction(name, mode)]. *)
Lemma transaction_first {A} conn name mode (k : IDBTransaction -> Exec A) :
  (forall t, appends (k t)) ->
  forall h,
    List.head (calls (snd (bind (db_transaction conn name mode) k h (mkExec [] None))))
    = Some (call_transaction name mode).
Proof.
  intros Hk h. unfold bind, db_transaction, called, the_host. cbn -[lookup].
  destruct (stores h !! name); cbn; [|reflexivity].
  match goal with |- context [k ?t h ?st] => destruct (Hk t h st) as [more Hmore] end.
  destruct (k _ h _) as [[e | a] st']; simpl in *; rewrite Hmore; reflexivity.
Qed.

Lemma run_first_call h executor hs :
  calls_of (run h executor hs) = calls (snd (executor h (mkExec [] None))).
Proof. unfold run. destruct (executor h _) as [r st]. reflexivity. Qed.

(** Whatever [storeName] the instance was constructed with, and whatever
    the host holds, the first engine call of every operation is a
    transaction on the literal ['s']. *)
Lemma transaction_on_literal_s this clock h c :
  DatabaseManager.db this = Some c ->
  forall key value entries,
    DatabaseManager.invalid_key key = false ->
    DatabaseManager.is_undefined value = false ->
    List.map (fun o => List.head (calls_of o))
      [DatabaseManager.get this clock h key;
       DatabaseManager.set this clock h key value;
       DatabaseManager.delete this clock h key;
       DatabaseManager.list this clock h;
       DatabaseManager.getAll this clock h;
       DatabaseManager.clear this clock h;
       DatabaseManager.setAll this clock h entries]
    = List.map Some
        [call_transaction "s" readonly; call_transaction "s" readwrite;
         call_transaction "s" readwrite; call_transaction "s" readonly;
         call_transaction "s" readonly; call_transaction "s" readwrite;
         call_transaction "s" readwrite].
Proof.
  intros Hdb key value entries Hkey Hvalue.
  unfold DatabaseManager.set. rewrite Hkey, Hvalue.
  unfold DatabaseManager.get, DatabaseManager.delete, DatabaseManager.list,
    DatabaseManager.getAll, DatabaseManager.clear, DatabaseManager.setAll,
    DatabaseManager.after_wait.
  rewrite (wait_connected this clock c Hdb).
  unfold List.map. rewrite !run_first_call.
  unfold DatabaseManager.get_executor, DatabaseManager.set_executor,
    DatabaseManager.delete_executor, DatabaseManager.list_executor,
    DatabaseManager.getAll_executor, DatabaseManager.clear_executor,
    DatabaseManager.setAll_executor, DatabaseManager.this_db_transaction.
  rewrite Hdb.
  repeat f_equal;
    (apply transaction_first; intros t;
     repeat first [ apply appends_tx_objectStore | apply appends_os_request
                  | apply appends_put_entries | apply appends_called
                  | apply appends_bind; [|intros ?] ]).
Qed.

(** C3, on the code.  The instance of the README is constructed with the
    store name ['myStore']; [init] creates that store; every operation then
    asks for a transaction on ['s'], which the database does not have, and
    is rejected with the engine's NotFoundError. *)
Theorem operations_ignore_storeName :
  let this := DatabaseManager.this_of readme_opened in
  let h := DatabaseManager.host readme_opened in
  let not_found mode o :=
    calls_of o = [call_transaction "s" mode]
    /\ promise_of o = Rejected (DOMException "NotFoundError") in
  DatabaseManager.storeName this = "myStore"
  /\ DatabaseManager.db this = Some (mkConn "myDatabase" 1)
  /\ stores h !! "myStore" = Some (mkStore "id" [])
  /\ stores h !! "s" = None
  /\ not_found readonly (DatabaseManager.get this [] h (JStr "username"))
  /\ not_found readwrite (DatabaseManager.set this [] h (JStr "username") (JStr "johnDoe"))
  /\ not_found readwrite (DatabaseManager.delete this [] h (JStr "username"))
  /\ not_found readonly (DatabaseManager.list this [] h)
  /\ not_found readonly (DatabaseManager.getAll this [] h)
  /\ not_found readwrite (DatabaseManager.clear this [] h)
  /\ not_found readwrite
       (DatabaseManager.setAll this [] h
          [JObj [("key", JStr "name"); ("value", JStr "Alice")]]).
Proof. repeat split; reflexivity. Qed.

(** ** init without a storage factory *)

(** With a [window] in which none of the four properties holds a factory,
    [init] rejects with its own error and makes no open request. *)
Lemma init_window_without_factory w this h :
  indexedDB w = None ->
  mozIndexedDB w = None ->
  webkitIndexedDB w = None ->
  msIndexedDB w = None ->
  let st := DatabaseManager.init (Some w) this h in
  DatabaseManager.promise st = Rejected (Error "IndexedDB not supported" None)
  /\ DatabaseManager.request st = None.
Proof.
  intros H1 H2 H3 H4. unfold DatabaseManager.init. cbn -[indexedDB].
  rewrite H1, H2, H3, H4. split; reflexivity.
Qed.

(** [isSupported] answers no when there is no [window]. *)
Lemma isSupported_without_window : DatabaseManager.isSupported None = false.
Proof. reflexivity. Qed.

(** C4, on the code.  Without a [window] the guard of [init] does not
    apply: [indexedDB] is [undefined], [indexedDB.open] throws, and the
    promise is rejected with that TypeError instead of the error
    ['IndexedDB not supported']. *)
Theorem init_without_window this h :
  let st := DatabaseManager.init None this h in
  DatabaseManager.promise st
  = Rejected (TypeError "Cannot read properties of undefined (reading 'open')")
  /\ DatabaseManager.promise st <> Rejected (Error "IndexedDB not supported" None)
  /\ DatabaseManager.request st = None.
Proof. repeat split; try reflexivity; discriminate. Qed.

(** ** The gate and the flag *)

(** While [db] is null at the call and at every tick, an operation makes no
    engine call. *)
Lemma gate_closed this clock h :
  DatabaseManager.db this = None ->
  DatabaseManager.poll clock = None ->
  forall key value entries,
    DatabaseManager.invalid_key key = false ->
    DatabaseManager.is_undefined value = false ->
    Forall (fun o => o = Waiting)
      [DatabaseManager.get this clock h key;
       DatabaseManager.set this clock h key value;
       DatabaseManager.delete this clock h key;
       DatabaseManager.list this clock h;
       DatabaseManager.getAll this clock h;
       DatabaseManager.clear this clock h;
       DatabaseManager.setAll this clock h entries].
Proof.
  intros Hdb Hpoll key value entries Hkey Hvalue.
  unfold DatabaseManager.set. rewrite Hkey, Hvalue.
  unfold DatabaseManager.get, DatabaseManager.delete, DatabaseManager.list,
    DatabaseManager.getAll, DatabaseManager.clear, DatabaseManager.setAll,
    DatabaseManager.after_wait, DatabaseManager._waitForDB.
  rewrite Hdb, Hpoll. repeat constructor.
Qed.

(** The gate opens on [db], whatever [ready] says. *)
Lemma poll_finds_db clock this' :
  DatabaseManager.poll clock = Some this' -> is_Some (DatabaseManager.db this').
Proof.
  induction clock as [|x later IH]; simpl; [discriminate|].
  destruct (DatabaseManager.db x) eqn:E; [|exact IH].
  intros [= <-]. rewrite E. eauto.
Qed.

(** On a host that answers as [open_script] says, [ready] is only ever
    true with [db] set: the flag follows the connection, not the other way
    round. *)
Lemma ready_has_db env databaseName version storeName keyPath h st :
  In st (DatabaseManager.init_run env
           (DatabaseManager.constructor databaseName version storeName keyPath) h) ->
  DatabaseManager.ready (DatabaseManager.this_of st) = true ->
  is_Some (DatabaseManager.db (DatabaseManager.this_of st)).
Proof.
  unfold DatabaseManager.init_run, DatabaseManager.init, open_script, factory_open.
  set (this := DatabaseManager.constructor databaseName version storeName keyPath).
  assert (Hfresh : DatabaseManager.ready this = false) by reflexivity.
  clearbody this.
  assert (Hcases : forall l : list DatabaseManager.InitState,
             Forall (fun st => DatabaseManager.ready (DatabaseManager.this_of st) = true ->
                               is_Some (DatabaseManager.db (DatabaseManager.this_of st))) l ->
             In st l ->
             DatabaseManager.ready (DatabaseManager.this_of st) = true ->
             is_Some (DatabaseManager.db (DatabaseManager.this_of st))).
  { intros l Hl Hin. rewrite List.Forall_forall in Hl. exact (Hl st Hin). }
  destruct env as [[[|[f1|]] [f2|] [f3|] [f4|]]|];
    cbn -[Z.leb Z.ltb In valid_key_path];
    repeat match goal with
      | |- context [Z.leb ?a ?b] => destruct (Z.leb a b)
      | |- context [Z.ltb ?a ?b] => destruct (Z.ltb a b)
      | |- context [healthy h] => destruct (healthy h)
      | |- context [valid_key_path ?p] => destruct (valid_key_path p)
      | |- context [stores h !! ?n] => destruct (stores h !! n)
      | _ => progress cbn -[Z.leb Z.ltb lookup insert In valid_key_path]
      | _ => progress unfold createObjectStore
      end;
    apply Hcases; repeat constructor; cbn; rewrite ?Hfresh; eauto; discriminate.
Qed.

(** C5, on the code.  [new DatabaseManager()] and [init()] on a host that
    has no database yet: the open request fires upgradeneeded, the
    completion of the creating transaction, then success.  In the state the
    completion handler leaves, [db] is set, the promise of [init] is
    resolved and [ready] is still false; a [get] called in that state
    passes the gate and places its request. *)
Theorem upgrade_sets_db_not_ready :
  exists st,
    nth_error (DatabaseManager.init_run browser default_instance fresh_host) 2 = Some st
    /\ DatabaseManager.db (DatabaseManager.this_of st) = Some (mkConn "ldb" 1)
    /\ DatabaseManager.promise st = Resolved JUndefined
    /\ DatabaseManager.ready (DatabaseManager.this_of st) = false
    /\ calls_of (DatabaseManager.get (DatabaseManager.this_of st) []
                   (DatabaseManager.host st) (JStr "k"))
       = [call_transaction "s" readonly; call_objectStore "s";
          call_request (req_get (JStr "k"))].
Proof. eexists. repeat split; reflexivity. Qed.

(** ** The checks of set *)

Lemma invalid_key_spec key :
  DatabaseManager.invalid_key key = false <-> exists s, key = JStr s /\ trim s <> "".
Proof.
  unfold DatabaseManager.invalid_key. split.
  - destruct key; simpl; try discriminate.
    intros H%String.eqb_neq. eauto.
  - intros (s & -> & H). simpl. apply String.eqb_neq, H.
Qed.

Lemma not_non_empty_invalid key :
  ~ non_empty_string key -> DatabaseManager.invalid_key key = true.
Proof.
  intros H. destruct (DatabaseManager.invalid_key key) eqn:E; [reflexivity|].
  exfalso. apply H. apply invalid_key_spec in E as (s & -> & Hs).
  exists s. split; [reflexivity|]. intros ->. apply Hs. reflexivity.
Qed.

(** C6, as amended.  When the key is not a non-empty string, [set] throws
    ['Invalid key']; when the value is [undefined] and the key is a string
    whose trimmed form is not empty, it throws ['Value cannot be
    undefined']; the key is checked first, so a blank key with an
    [undefined] value gives ['Invalid key'].  Either way the throw comes
    before the first await: no engine call is made and the database is as
    it was. *)
Theorem set_validates_key_then_value this clock h key value :
  ~ non_empty_string key \/ value = JUndefined ->
  let o := DatabaseManager.set this clock h key value in
  (~ non_empty_string key -> o = Thrown (Error "Invalid key" None))
  /\ (forall s, key = JStr s -> trim s <> "" ->
      o = Thrown (Error "Value cannot be undefined" None))
  /\ (forall s, key = JStr s -> trim s = "" -> o = Thrown (Error "Invalid key" None))
  /\ (exists e, o = Thrown e)
  /\ calls_of o = []
  /\ host_after h o = h.
Proof.
  intros H o. subst o. unfold DatabaseManager.set.
  destruct (DatabaseManager.invalid_key key) eqn:Hkey.
  - repeat split; try reflexivity; eauto.
    intros s -> Hs. exfalso.
    assert (DatabaseManager.invalid_key (JStr s) = false)
      by (apply invalid_key_spec; eauto).
    congruence.
  - apply invalid_key_spec in Hkey as (s0 & -> & Hs0).
    destruct H as [H | ->].
    + exfalso. apply H. exists s0. split; [reflexivity|].
      intros ->. apply Hs0. reflexivity.
    + simpl. repeat split; try reflexivity; eauto.
      * intros H. exfalso. apply H. exists s0. split; [reflexivity|].
        intros ->. apply Hs0. reflexivity.
      * intros s [= <-] Hs. contradiction.
Qed.

Lemma set_validates_key_then_value_witness :
  DatabaseManager.set ready_instance [] ready_host (JStr "") (JStr "v")
  = Thrown (Error "Invalid key" None)
  /\ DatabaseManager.set ready_instance [] ready_host (JStr "k") JUndefined
     = Thrown (Error "Value cannot be undefined" None).
Proof.
  split.
  - pose proof (set_validates_key_then_value ready_instance [] ready_host (JStr "") (JStr "v"))
      as H.
    destruct H as (Hkey & _).
    + left. intros (s & [= <-] & Hs). apply Hs. reflexivity.
    + apply Hkey. intros (s & [= <-] & Hs). apply Hs. reflexivity.
  - pose proof (set_validates_key_then_value ready_instance [] ready_host (JStr "k")
                  JUndefined (or_intror eq_refl)) as (_ & Hvalue & _).
    apply (Hvalue "k" eq_refl). discriminate.
Defined.

(** C6, as stated, fails at a key of white space only with an [undefined]
    value: [' '] is a non-empty string, and [set(' ', undefined)] throws
    ['Invalid key'], not ['Value cannot be undefined']. *)
Lemma set_blank_key_undefined_value :
  non_empty_string (JStr " ")
  /\ DatabaseManager.set ready_instance [] ready_host (JStr " ") JUndefined
     = Thrown (Error "Invalid key" None)
  /\ DatabaseManager.set ready_instance [] ready_host (JStr " ") JUndefined
     <> Thrown (Error "Value cannot be undefined" None).
Proof.
  split; [|split].
  - exists " ". split; [reflexivity | discriminate].
  - reflexivity.
  - discriminate.
Qed.

(** C10.  A string key whose trimmed form is empty, such as [' '], is
    refused by [set] with ['Invalid key'] before the first await, whatever
    the value. *)
Theorem set_refuses_blank_key this clock h s value :
  trim s = "" ->
  let o := DatabaseManager.set this clock h (JStr s) value in
  o = Thrown (Error "Invalid key" None)
  /\ calls_of o = []
  /\ host_after h o = h.
Proof.
  intros H o. subst o. unfold DatabaseManager.set, DatabaseManager.invalid_key.
  rewrite H. simpl. repeat split.
Qed.

Lemma set_refuses_blank_key_witness :
  " " <> ""
  /\ DatabaseManager.set ready_instance [] ready_host (JStr " ") (JStr "v")
     = Thrown (Error "Invalid key" None).
Proof.
  split; [discriminate|].
  apply (set_refuses_blank_key ready_instance [] ready_host " " (JStr "v")).
  reflexivity.
Defined.

(** ** When set resolves *)

Lemma set_handlers_resolve_on_complete h name mode queue : forall view p,
  (forall v, p <> Resolved v) ->
  Forall resolved_on_complete
    (deliver DatabaseManager.set_handlers p (answer h name mode view queue)).
Proof.
  induction queue as [|r rest IH]; intros view p Hp; simpl.
  - constructor; [|constructor]. intros v _. reflexivity.
  - destruct (healthy h).
    + destruct (apply_request view r) as [result view']. simpl.
      assert (Hsame : settle p None = p) by (destruct p; reflexivity).
      rewrite Hsame. constructor.
      * intros v Hv. exfalso. exact (Hp v Hv).
      * apply IH, Hp.
    + simpl. assert (Hrej : forall e v, settle (settle p None) (Some (Rejected e)) <> Resolved v).
      { intros e v. destruct p; simpl; try discriminate. apply Hp. }
      repeat constructor; intros v Hv; exfalso; exact (Hrej _ _ Hv).
Qed.

Lemma set_resolves_only_on_complete this clock h key value :
  Forall resolved_on_complete (events_of (DatabaseManager.set this clock h key value)).
Proof.
  unfold DatabaseManager.set.
  destruct (DatabaseManager.invalid_key key); [constructor|].
  destruct (DatabaseManager.is_undefined value); [constructor|].
  unfold DatabaseManager.after_wait.
  destruct (DatabaseManager._waitForDB this clock) as [this'|]; [|constructor].
  unfold run.
  destruct (DatabaseManager.set_executor key value this' h _) as [r st]. simpl.
  assert (Hp : forall v, match r with inl e => Rejected e | inr _ => Pending end <> Resolved v)
    by (destruct r; discriminate).
  unfold timeline. destruct (active st) as [t|]; [|constructor].
  destruct (stores h !! txn_store t); [|constructor].
  apply set_handlers_resolve_on_complete, Hp.
Qed.

(** C7.  For a key and a value that pass the checks of [set], on a
    connected instance, a store ['s'] keyed by ['k'] and a host that
    carries requests out: the transaction of [set] fires two events.  When
    the put is acknowledged the promise is still pending and other
    transactions still see the database as it was; the promise is resolved
    by the completion event, and by no other event; a [get] of the key in
    the database as it is from then on reads the record just written, whose
    [v] is the value, and resolves with it when the value is truthy or
    [null]. *)
Theorem set_resolves_when_transaction_completes this clock clock' h c recs s value :
  DatabaseManager.db this = Some c ->
  stores h !! "s" = Some (mkStore "k" recs) ->
  healthy h = true ->
  trim s <> "" ->
  value <> JUndefined ->
  let record := JObj [("k", JStr s); ("v", value)] in
  let written := DatabaseManager.set this clock h (JStr s) value in
  exists h',
    events_of written
    = [mkStep (ev_success (req_put record) (JStr s)) h Pending;
       mkStep ev_complete h' (Resolved JUndefined)]
    /\ Forall resolved_on_complete (events_of written)
    /\ host_after h written = h'
    /\ (exists p rest,
          events_of (DatabaseManager.get this clock' h' (JStr s))
          = mkStep (ev_success (req_get (JStr s)) record) h' p :: rest)
    /\ get_prop record "v" = value
    /\ (truthy value = true \/ value = JNull ->
        promise_of (DatabaseManager.get this clock' h' (JStr s)) = Resolved value).
Proof.
  intros Hdb Hst Hh Hs Hvalue record written.
  eexists. split; [|split; [|split; [|split; [|split]]]].
  - subst written. rewrite (set_run this clock h c _ Hdb Hst Hh s value eq_refl Hs Hvalue).
    reflexivity.
  - apply set_resolves_only_on_complete.
  - subst written. rewrite (set_run this clock h c _ Hdb Hst Hh s value eq_refl Hs Hvalue).
    reflexivity.
  - erewrite (get_run this clock' _ c _ Hdb); cycle 1.
    + rewrite with_stores_lookup. apply lookup_insert_eq.
    + exact Hh.
    + reflexivity.
    + cbn -[lookup insert]. rewrite records_get_put. eauto.
  - reflexivity.
  - intros Hv.
    pose proof (set_then_get_returns_aux this clock clock' h c recs s value
                  Hdb Hst Hh Hs Hv) as [_ Hget].
    rewrite (set_run this clock h c _ Hdb Hst Hh s value eq_refl Hs Hvalue) in Hget.
    exact Hget.
Qed.

Lemma set_resolves_when_transaction_completes_witness :
  exists h',
    events_of (DatabaseManager.set ready_instance [] ready_host (JStr "username") (JStr "johnDoe"))
    = [mkStep (ev_success (req_put (JObj [("k", JStr "username"); ("v", JStr "johnDoe")]))
                 (JStr "username")) ready_host Pending;
       mkStep ev_complete h' (Resolved JUndefined)].
Proof.
  destruct (set_resolves_when_transaction_completes ready_instance [] [] ready_host
              (mkConn "ldb" 1) [] "username" (JStr "johnDoe"))
    as (h' & Hevents & _).
  - reflexivity.
  - reflexivity.
  - reflexivity.
  - discriminate.
  - discriminate.
  - exists h'. exact Hevents.
Defined.

(** ** delete *)

(** Deleting by any valid key: the request succeeds, an absent key changes
    nothing, and a second delete finds the database as the first left it. *)
Lemma delete_valid_key this clock h c os key k :
  DatabaseManager.db this = Some c ->
  stores h !! "s" = Some os ->
  healthy h = true ->
  to_key key = Some k ->
  let once := DatabaseManager.delete this clock h key in
  let h1 := host_after h once in
  let twice := DatabaseManager.delete this clock h1 key in
  promise_of once = Resolved JUndefined
  /\ (has_key (os_records os) k = false -> h1 = h)
  /\ promise_of twice = promise_of once
  /\ host_after h1 twice = h1.
Proof.
  intros Hdb Hst Hh Hk once h1 twice.
  assert (Hh1 : h1 = with_stores h
                  (<["s" := mkStore (os_keyPath os) (records_delete (os_records os) k)]>
                     (stores h))).
  { subst h1 once. rewrite (delete_run this clock h c os Hdb Hst Hh key k Hk). reflexivity. }
  assert (Hst1 : stores h1 !! "s"
                 = Some (mkStore (os_keyPath os) (records_delete (os_records os) k))).
  { rewrite Hh1, with_stores_lookup. apply lookup_insert_eq. }
  assert (Hh1' : healthy h1 = true) by (rewrite Hh1; exact Hh).
  split; [|split; [|split]].
  - subst once. rewrite (delete_run this clock h c os Hdb Hst Hh key k Hk). reflexivity.
  - intros Habsent. rewrite Hh1, (records_delete_absent _ _ Habsent).
    destruct os as [path recs]. apply write_back, Hst.
  - subst twice once.
    rewrite (delete_run this clock h1 c _ Hdb Hst1 Hh1' key k Hk).
    rewrite (delete_run this clock h c os Hdb Hst Hh key k Hk). reflexivity.
  - subst twice. rewrite (delete_run this clock h1 c _ Hdb Hst1 Hh1' key k Hk).
    cbn -[lookup insert records_delete]. rewrite records_delete_idem.
    apply write_back, Hst1.
Qed.

(** C8.  On a connected instance, a database holding the store ['s'] and a
    host that carries requests out, for every string key: [delete(key)]
    resolves; when no record has the key the database is unchanged; a
    second [delete(key)] resolves as the first did and leaves the database
    as the first left it. *)
Theorem delete_idempotent this clock h c os s :
  DatabaseManager.db this = Some c ->
  stores h !! "s" = Some os ->
  healthy h = true ->
  let once := DatabaseManager.delete this clock h (JStr s) in
  let h1 := host_after h once in
  let twice := DatabaseManager.delete this clock h1 (JStr s) in
  promise_of once = Resolved JUndefined
  /\ (has_key (os_records os) (KStr s) = false -> h1 = h)
  /\ promise_of twice = Resolved JUndefined
  /\ host_after h1 twice = h1.
Proof.
  intros Hdb Hst Hh.
  destruct (delete_valid_key this clock h c os (JStr s) (KStr s) Hdb Hst Hh eq_refl)
    as (Honce & Habsent & Htwice & Hsame).
  cbv zeta. rewrite Htwice. auto.
Qed.

Lemma delete_idempotent_witness :
  promise_of (DatabaseManager.delete ready_instance [] ready_host (JStr "username"))
  = Resolved JUndefined
  /\ host_after ready_host (DatabaseManager.delete ready_instance [] ready_host (JStr "username"))
     = ready_host.
Proof.
  destruct (delete_idempotent ready_instance [] ready_host (mkConn "ldb" 1) (mkStore "k" [])
              "username" eq_refl eq_refl eq_refl)
    as (Hres & Hsame & _).
  split; [exact Hres | exact (Hsame eq_refl)].
Defined.

(** ** list, clear and the empty collection *)

(** C9.  On a connected instance, a database holding the store ['s'] and a
    host that carries requests out: [list()] resolves with an array, the
    empty one when the store holds no record; [clear()] resolves, and after
    it [list()] and [getAll()] resolve with the empty array. *)
Theorem empty_collection_is_empty_array this clock h c os :
  DatabaseManager.db this = Some c ->
  stores h !! "s" = Some os ->
  healthy h = true ->
  let cleared := DatabaseManager.clear this clock h in
  let h' := host_after h cleared in
  (exists keys, promise_of (DatabaseManager.list this clock h) = Resolved (JArr keys))
  /\ (os_records os = [] -> promise_of (DatabaseManager.list this clock h) = Resolved (JArr []))
  /\ promise_of cleared = Resolved JUndefined
  /\ promise_of (DatabaseManager.list this clock h') = Resolved (JArr [])
  /\ promise_of (DatabaseManager.getAll this clock h') = Resolved (JArr []).
Proof.
  intros Hdb Hst Hh cleared h'.
  assert (Hh' : h' = with_stores h (<["s" := mkStore (os_keyPath os) []]> (stores h))).
  { subst h' cleared. rewrite (clear_run this clock h c os Hdb Hst Hh). reflexivity. }
  assert (Hst' : stores h' !! "s" = Some (mkStore (os_keyPath os) [])).
  { rewrite Hh', with_stores_lookup. apply lookup_insert_eq. }
  assert (Hhealthy : healthy h' = true) by (rewrite Hh'; exact Hh).
  split; [|split; [|split; [|split]]].
  - rewrite (list_run this clock h c os Hdb Hst Hh). cbn. eauto.
  - intros Hempty. rewrite (list_run this clock h c os Hdb Hst Hh), Hempty. reflexivity.
  - subst cleared. rewrite (clear_run this clock h c os Hdb Hst Hh). reflexivity.
  - rewrite (list_run this clock h' c _ Hdb Hst' Hhealthy). reflexivity.
  - rewrite (getAll_run this clock h' c _ Hdb Hst' Hhealthy). reflexivity.
Qed.

Lemma empty_collection_is_empty_array_witness :
  promise_of (DatabaseManager.list ready_instance [] ready_host) = Resolved (JArr [])
  /\ promise_of
       (DatabaseManager.list ready_instance []
          (host_after one_record_host (DatabaseManager.clear ready_instance [] one_record_host)))
     = Resolved (JArr []).
Proof.
  split.
  - destruct (empty_collection_is_empty_array ready_instance [] ready_host (mkConn "ldb" 1)
                (mkStore "k" []) eq_refl eq_refl eq_refl)
      as (_ & Hempty & _).
    exact (Hempty eq_refl).
  - destruct (empty_collection_is_empty_array ready_instance [] one_record_host
                (mkConn "ldb" 1)
                (mkStore "k" [(KStr "username",
                               JObj [("k", JStr "username"); ("v", JStr "johnDoe")])])
                eq_refl eq_refl eq_refl)
      as (_ & _ & _ & Hlist & _).
    exact Hlist.
Defined.

(** * Further properties *)

(** ** More on the records of a store *)

Lemma key_eqb_eq k k' : key_eqb k k' = true -> k = k'.
Proof.
  unfold key_eqb. destruct (key_compare k k') eqn:E; try discriminate.
  intros _. apply key_compare_eq, E.
Qed.

Lemma key_eqb_neq k k' : k <> k' -> key_eqb k k' = false.
Proof.
  intros H. destruct (key_eqb k k') eqn:E; [|reflexivity].
  exfalso. apply H, key_eqb_eq, E.
Qed.

Lemma records_get_absent recs k : has_key recs k = false -> records_get recs k = JUndefined.
Proof.
  unfold has_key. induction recs as [|[k' v'] rest IH]; simpl; [reflexivity|].
  intros [Hk Hrest]%orb_false_elim. rewrite Hk. auto.
Qed.

Lemma records_get_put_other recs k v k' :
  k' <> k -> records_get (records_put recs k v) k' = records_get recs k'.
Proof.
  intros Hne. induction recs as [|[k1 v1] rest IH]; simpl.
  - rewrite (key_eqb_neq _ _ Hne). reflexivity.
  - destruct (key_compare k k1) eqn:E; simpl.
    + apply key_compare_eq in E as <-. rewrite (key_eqb_neq _ _ Hne). reflexivity.
    + rewrite (key_eqb_neq _ _ Hne). reflexivity.
    + rewrite IH. reflexivity.
Qed.

Lemma records_put_put recs k v1 v2 :
  records_put (records_put recs k v1) k v2 = records_put recs k v2.
Proof.
  induction recs as [|[k1 w] rest IH]; simpl.
  - rewrite key_compare_refl. reflexivity.
  - destruct (key_compare k k1) eqn:E; simpl.
    + rewrite key_compare_refl. reflexivity.
    + rewrite key_compare_refl. reflexivity.
    + rewrite E, IH. reflexivity.
Qed.

Lemma records_get_delete recs k : records_get (records_delete recs k) k = JUndefined.
Proof. apply records_get_absent, records_delete_gone. Qed.

Lemma records_get_delete_other recs k k' :
  k' <> k -> records_get (records_delete recs k) k' = records_get recs k'.
Proof.
  intros Hne. unfold records_delete.
  induction recs as [|[k1 v1] rest IH]; simpl; [reflexivity|].
  destruct (key_eqb k k1) eqn:E; simpl.
  - apply key_eqb_eq in E as <-. rewrite (key_eqb_neq _ _ Hne). exact IH.
  - rewrite IH. reflexivity.
Qed.

(** ** Reading a key *)

Lemma get_onsuccess_undefined r :
  DatabaseManager.get_onsuccess (ev_success r JUndefined) = Resolved JNull.
Proof. reflexivity. Qed.

(** The promise of [get], from the record the request read. *)
Lemma get_promise this clock h c os key k :
  DatabaseManager.db this = Some c ->
  stores h !! "s" = Some os ->
  healthy h = true ->
  to_key key = Some k ->
  promise_of (DatabaseManager.get this clock h key)
  = DatabaseManager.get_onsuccess
      (ev_success (req_get key) (records_get (os_records os) k))
  /\ host_after h (DatabaseManager.get this clock h key) = h.
Proof.
  intros Hdb Hst Hh Hk. rewrite (get_run this clock h c os Hdb Hst Hh key k Hk).
  split; reflexivity.
Qed.

(** X1.  On a connected instance, a database holding the store ['s'] and a
    host that carries requests out: [get] of a valid key that no record has
    resolves with [null], and leaves the database as it was. *)
Theorem get_missing_key_is_null this clock h c os key k :
  DatabaseManager.db this = Some c ->
  stores h !! "s" = Some os ->
  healthy h = true ->
  to_key key = Some k ->
  has_key (os_records os) k = false ->
  promise_of (DatabaseManager.get this clock h key) = Resolved JNull
  /\ host_after h (DatabaseManager.get this clock h key) = h.
Proof.
  intros Hdb Hst Hh Hk Habsent.
  destruct (get_promise this clock h c os key k Hdb Hst Hh Hk) as [-> ->].
  rewrite (records_get_absent _ _ Habsent). split; reflexivity.
Qed.

Lemma get_missing_key_is_null_witness :
  promise_of (DatabaseManager.get ready_instance [] one_record_host (JStr "email"))
  = Resolved JNull.
Proof.
  apply (get_missing_key_is_null ready_instance [] one_record_host (mkConn "ldb" 1)
           (mkStore "k" [(KStr "username",
                          JObj [("k", JStr "username"); ("v", JStr "johnDoe")])])
           (JStr "email") (KStr "email")); reflexivity.
Defined.

(** The database after a [delete], and what it holds under ['s']. *)
Lemma delete_host this clock h c os key k :
  DatabaseManager.db this = Some c ->
  stores h !! "s" = Some os ->
  healthy h = true ->
  to_key key = Some k ->
  let h1 := host_after h (DatabaseManager.delete this clock h key) in
  stores h1 !! "s" = Some (mkStore (os_keyPath os) (records_delete (os_records os) k))
  /\ healthy h1 = true.
Proof.
  intros Hdb Hst Hh Hk. rewrite (delete_run this clock h c os Hdb Hst Hh key k Hk).
  cbn -[lookup insert records_delete]. split; [apply lookup_insert_eq | exact Hh].
Qed.

(** X2.  After [delete(key)], [get(key)] resolves with [null], and [get] of
    any other valid key resolves as it did before the delete. *)
Theorem delete_then_get this clock clock' h c os key k :
  DatabaseManager.db this = Some c ->
  stores h !! "s" = Some os ->
  healthy h = true ->
  to_key key = Some k ->
  let h1 := host_after h (DatabaseManager.delete this clock h key) in
  promise_of (DatabaseManager.get this clock' h1 key) = Resolved JNull
  /\ forall key' k',
       to_key key' = Some k' -> k' <> k ->
       promise_of (DatabaseManager.get this clock' h1 key')
       = promise_of (DatabaseManager.get this clock' h key').
Proof.
  intros Hdb Hst Hh Hk h1.
  destruct (delete_host this clock h c os key k Hdb Hst Hh Hk) as [Hst1 Hh1].
  fold h1 in Hst1, Hh1. split.
  - destruct (get_promise this clock' h1 c _ key k Hdb Hst1 Hh1 Hk) as [-> _].
    cbn -[records_delete]. rewrite records_get_delete. reflexivity.
  - intros key' k' Hk' Hne.
    destruct (get_promise this clock' h1 c _ key' k' Hdb Hst1 Hh1 Hk') as [-> _].
    destruct (get_promise this clock' h c os key' k' Hdb Hst Hh Hk') as [-> _].
    cbn -[records_delete]. rewrite (records_get_delete_other _ _ _ Hne). reflexivity.
Qed.

Lemma delete_then_get_witness :
  promise_of
    (DatabaseManager.get ready_instance []
       (host_after one_record_host
          (DatabaseManager.delete ready_instance [] one_record_host (JStr "username")))
       (JStr "username"))
  = Resolved JNull.
Proof.
  apply (delete_then_get ready_instance [] [] one_record_host (mkConn "ldb" 1)
           (mkStore "k" [(KStr "username",
                          JObj [("k", JStr "username"); ("v", JStr "johnDoe")])])
           (JStr "username") (KStr "username")); reflexivity.
Defined.

(** ** Writing a key *)

(** The database after a [set], and what it holds under ['s']. *)
Lemma set_host this clock h c recs s value :
  DatabaseManager.db this = Some c ->
  stores h !! "s" = Some (mkStore "k" recs) ->
  healthy h = true ->
  trim s <> "" ->
  value <> JUndefined ->
  let written := DatabaseManager.set this clock h (JStr s) value in
  let record := JObj [("k", JStr s); ("v", value)] in
  promise_of written = Resolved JUndefined
  /\ host_after h written
     = with_stores h (<["s" := mkStore "k" (records_put recs (KStr s) record)]> (stores h))
  /\ stores (host_after h written) !! "s"
     = Some (mkStore "k" (records_put recs (KStr s) record))
  /\ healthy (host_after h written) = true.
Proof.
  intros Hdb Hst Hh Hs Hvalue.
  rewrite (set_run this clock h c _ Hdb Hst Hh s value eq_refl Hs Hvalue).
  cbn -[lookup insert]. repeat split; [apply lookup_insert_eq | exact Hh].
Qed.

(** X3.  [set] is an upsert: [set(key, v1)] followed by [set(key, v2)]
    leaves the database exactly as [set(key, v2)] alone does, with one
    record under the key, and a [get] of the key then reads the record of
    [v2]. *)
Theorem set_overwrites this clock h c recs s v1 v2 :
  DatabaseManager.db this = Some c ->
  stores h !! "s" = Some (mkStore "k" recs) ->
  healthy h = true ->
  trim s <> "" ->
  v1 <> JUndefined ->
  v2 <> JUndefined ->
  let h1 := host_after h (DatabaseManager.set this clock h (JStr s) v1) in
  let h2 := host_after h1 (DatabaseManager.set this clock h1 (JStr s) v2) in
  promise_of (DatabaseManager.set this clock h1 (JStr s) v2) = Resolved JUndefined
  /\ h2 = host_after h (DatabaseManager.set this clock h (JStr s) v2)
  /\ promise_of (DatabaseManager.get this clock h2 (JStr s))
     = DatabaseManager.get_onsuccess
         (ev_success (req_get (JStr s)) (JObj [("k", JStr s); ("v", v2)])).
Proof.
  intros Hdb Hst Hh Hs Hv1 Hv2 h1 h2.
  destruct (set_host this clock h c recs s v1 Hdb Hst Hh Hs Hv1) as (_ & Hh1 & Hst1 & Hhealthy1).
  fold h1 in Hh1, Hst1, Hhealthy1.
  destruct (set_host this clock h1 c _ s v2 Hdb Hst1 Hhealthy1 Hs Hv2)
    as (Hres & Hh2 & Hst2 & Hhealthy2).
  fold h2 in Hh2, Hst2, Hhealthy2.
  destruct (set_host this clock h c recs s v2 Hdb Hst Hh Hs Hv2) as (_ & Hdirect & _).
  split; [exact Hres|]. split.
  - rewrite Hh2, Hdirect, Hh1, records_put_put. apply write_twice.
  - destruct (get_promise this clock h2 c _ (JStr s) (KStr s) Hdb Hst2 Hhealthy2 eq_refl)
      as [-> _].
    cbn. rewrite records_get_put. reflexivity.
Qed.

Lemma set_overwrites_witness :
  promise_of
    (DatabaseManager.get ready_instance []
       (host_after one_record_host
          (DatabaseManager.set ready_instance [] one_record_host (JStr "username")
             (JStr "janeDoe")))
       (JStr "username"))
  = Resolved (JStr "janeDoe").
Proof.
  pose proof (set_overwrites ready_instance [] ready_host (mkConn "ldb" 1) [] "username"
                (JStr "johnDoe") (JStr "janeDoe") eq_refl eq_refl eq_refl
                ltac:(discriminate) ltac:(discriminate) ltac:(discriminate))
    as (_ & _ & Hget).
  exact Hget.
Defined.

(** X4.  [set(key, value)] changes what [get] reads under no other key. *)
Theorem set_keeps_other_keys this clock clock' h c recs s value key' k' :
  DatabaseManager.db this = Some c ->
  stores h !! "s" = Some (mkStore "k" recs) ->
  healthy h = true ->
  trim s <> "" ->
  value <> JUndefined ->
  to_key key' = Some k' ->
  k' <> KStr s ->
  promise_of
    (DatabaseManager.get this clock'
       (host_after h (DatabaseManager.set this clock h (JStr s) value)) key')
  = promise_of (DatabaseManager.get this clock' h key').
Proof.
  intros Hdb Hst Hh Hs Hvalue Hk' Hne.
  destruct (set_host this clock h c recs s value Hdb Hst Hh Hs Hvalue)
    as (_ & _ & Hst1 & Hh1).
  destruct (get_promise this clock' _ c _ key' k' Hdb Hst1 Hh1 Hk') as [-> _].
  destruct (get_promise this clock' h c _ key' k' Hdb Hst Hh Hk') as [-> _].
  cbn. rewrite (records_get_put_other _ _ _ _ Hne). reflexivity.
Qed.

Lemma set_keeps_other_keys_witness :
  promise_of
    (DatabaseManager.get ready_instance []
       (host_after one_record_host
          (DatabaseManager.set ready_instance [] one_record_host (JStr "email") (JStr "j@d")))
       (JStr "username"))
  = Resolved (JStr "johnDoe").
Proof.
  rewrite (set_keeps_other_keys ready_instance [] [] one_record_host (mkConn "ldb" 1)
             [(KStr "username", JObj [("k", JStr "username"); ("v", JStr "johnDoe")])]
             "email" (JStr "j@d") (JStr "username") (KStr "username"));
    try reflexivity; discriminate.
Defined.

(** X5.  [get] does not tell a stored falsy value from a missing key: after
    [set(key, value)] with a value that is falsy ([null], [false], [0],
    [NaN] or ['']), [get(key)] resolves with [null]. *)
Theorem get_of_falsy_is_null this clock clock' h c recs s value :
  DatabaseManager.db this = Some c ->
  stores h !! "s" = Some (mkStore "k" recs) ->
  healthy h = true ->
  trim s <> "" ->
  value <> JUndefined ->
  truthy value = false ->
  let written := DatabaseManager.set this clock h (JStr s) value in
  promise_of written = Resolved JUndefined
  /\ promise_of (DatabaseManager.get this clock' (host_after h written) (JStr s))
     = Resolved JNull.
Proof.
  intros Hdb Hst Hh Hs Hvalue Hfalsy written.
  destruct (set_host this clock h c recs s value Hdb Hst Hh Hs Hvalue)
    as (Hres & _ & Hst1 & Hh1).
  fold written in Hres, Hst1, Hh1. split; [exact Hres|].
  destruct (get_promise this clock' _ c _ (JStr s) (KStr s) Hdb Hst1 Hh1 eq_refl) as [-> _].
  cbn. rewrite records_get_put.
  unfold DatabaseManager.get_onsuccess, js_or, js_and. cbn. rewrite Hfalsy. reflexivity.
Qed.

Lemma get_of_falsy_is_null_witness :
  promise_of
    (DatabaseManager.get ready_instance []
       (host_after ready_host
          (DatabaseManager.set ready_instance [] ready_host (JStr "flag") (JBool false)))
       (JStr "flag"))
  = Resolved JNull.
Proof.
  apply (get_of_falsy_is_null ready_instance [] [] ready_host (mkConn "ldb" 1) []
           "flag" (JBool false)); try reflexivity; discriminate.
Defined.

(** ** What a run does to the database *)

Lemma deliver_hosts hs tl : forall p, List.map step_host (deliver hs p tl) = List.map snd tl.
Proof.
  induction tl as [|[e h] rest IH]; intros p; simpl; [reflexivity|].
  rewrite IH. reflexivity.
Qed.

Lemma last_cons_nonempty {A} (x : A) l d : l <> [] -> List.last (x :: l) d = List.last l d.
Proof. destruct l; [congruence | reflexivity]. Qed.

Lemma answer_nonempty h name mode view queue : answer h name mode view queue <> [].
Proof.
  destruct queue as [|r rest]; simpl; [discriminate|].
  destruct (healthy h); [destruct (apply_request view r)|]; discriminate.
Qed.

Lemma answer_last h name mode queue : forall view d,
  List.last (List.map snd (answer h name mode view queue)) d
  = answer_final h name mode view queue.
Proof.
  unfold answer_final.
  induction queue as [|r rest IH]; intros view d; simpl.
  - destruct (healthy h); reflexivity.
  - destruct (healthy h) eqn:Hh; [|reflexivity].
    destruct (apply_request view r) as [result view'] eqn:E. simpl List.map.
    rewrite last_cons_nonempty.
    + rewrite IH. reflexivity.
    + intros Hnil. apply map_eq_nil in Hnil. exact (answer_nonempty _ _ _ _ _ Hnil).
Qed.

Lemma host_after_run h executor hs :
  host_after h (run h executor hs)
  = List.last (List.map snd (timeline h (active (snd (executor h (mkExec [] None)))))) h.
Proof.
  unfold host_after, run. destruct (executor h _) as [r st]. simpl.
  rewrite deliver_hosts. reflexivity.
Qed.

(** A run leaves the database as it was, or with one store replaced by what
    the queued requests made of it. *)
Lemma run_effect h executor hs name mode :
  opens name mode executor ->
  host_after h (run h executor hs) = h
  \/ exists os queue,
       stores h !! name = Some os
       /\ mode = readwrite
       /\ host_after h (run h executor hs)
          = with_stores h (<[name := apply_all os queue]> (stores h)).
Proof.
  intros Hopens. rewrite host_after_run.
  specialize (Hopens h (mkExec [] None) I).
  destruct (active (snd (executor h _))) as [t|]; simpl; [|left; reflexivity].
  destruct Hopens as [<- <-].
  destruct (stores h !! txn_store t) as [os|] eqn:Hos; [|left; reflexivity].
  rewrite answer_last. unfold answer_final.
  destruct (txn_mode t) eqn:Hmode.
  - left. destruct (healthy h); [|destruct (txn_queue t)]; reflexivity.
  - destruct (healthy h); [|destruct (txn_queue t) eqn:Hq; [|left; reflexivity]];
      right; exists os, (txn_queue t); rewrite ?Hq; auto.
Qed.

(** *** Which transaction each piece of code opens *)

Lemma opens_ret {A} name mode (a : A) : opens name mode (ret a).
Proof. intros h st H. exact H. Qed.

Lemma opens_throw {A} name mode e : opens name mode (@throw A e).
Proof. intros h st H. exact H. Qed.

Lemma opens_called name mode c : opens name mode (called c).
Proof. intros h st H. exact H. Qed.

Lemma opens_bind {A B} name mode (m : Exec A) (k : A -> Exec B) :
  opens name mode m -> (forall a, opens name mode (k a)) -> opens name mode (bind m k).
Proof.
  intros Hm Hk h st H. unfold bind.
  specialize (Hm h st H).
  destruct (m h st) as [[e | a] st']; simpl in *; [exact Hm|].
  apply Hk, Hm.
Qed.

Lemma opens_db_transaction conn name mode : opens name mode (db_transaction conn name mode).
Proof.
  intros h st H. unfold db_transaction, bind, called, the_host. cbn -[lookup].
  destruct (stores h !! name); simpl; auto.
Qed.

Lemma opens_tx_objectStore name mode t store : opens name mode (tx_objectStore t store).
Proof.
  intros h st H. unfold tx_objectStore, bind, called, the_host. cbn -[lookup].
  destruct (stores h !! store); [destruct (String.eqb store (tx_store t))|]; exact H.
Qed.

Lemma opens_os_request name mode s r : opens name mode (os_request s r).
Proof.
  intros h st H. unfold os_request, bind, called. cbn.
  destruct (request_exception _ _ _); simpl; [exact H|].
  destruct (active st); exact H.
Qed.

Lemma opens_put_entries name mode store entries :
  opens name mode (DatabaseManager.put_entries store entries).
Proof.
  induction entries as [|entry rest IH]; simpl; [apply opens_ret|].
  destruct entry; try apply opens_throw;
    (apply opens_bind; [apply opens_os_request | intros _; exact IH]).
Qed.

Lemma opens_this_db_transaction this name mode :
  opens name mode (DatabaseManager.this_db_transaction this name mode).
Proof.
  unfold DatabaseManager.this_db_transaction.
  destruct (DatabaseManager.db this); [apply opens_db_transaction | apply opens_throw].
Qed.

Ltac opens_executor :=
  intros;
  unfold DatabaseManager.get_executor, DatabaseManager.set_executor,
    DatabaseManager.delete_executor, DatabaseManager.list_executor,
    DatabaseManager.getAll_executor, DatabaseManager.clear_executor,
    DatabaseManager.setAll_executor, os_get, os_put, os_delete, os_getAllKeys,
    os_getAll, os_clear, tx_commit;
  repeat first
    [ apply opens_this_db_transaction | apply opens_tx_objectStore
    | apply opens_os_request | apply opens_put_entries | apply opens_called
    | apply opens_bind; [|intros ?] ].

Lemma opens_get key this : opens "s" readonly (DatabaseManager.get_executor key this).
Proof. opens_executor. Qed.

Lemma opens_list this : opens "s" readonly (DatabaseManager.list_executor this).
Proof. opens_executor. Qed.

Lemma opens_getAll this : opens "s" readonly (DatabaseManager.getAll_executor this).
Proof. opens_executor. Qed.

Lemma opens_set key value this :
  opens "s" readwrite (DatabaseManager.set_executor key value this).
Proof. opens_executor. Qed.

Lemma opens_delete key this : opens "s" readwrite (DatabaseManager.delete_executor key this).
Proof. opens_executor. Qed.

Lemma opens_clear this : opens "s" readwrite (DatabaseManager.clear_executor this).
Proof. opens_executor. Qed.

Lemma opens_setAll entries this :
  opens "s" readwrite (DatabaseManager.setAll_executor entries this).
Proof. opens_executor. Qed.

(** An operation after its wait, whatever the instance and the clock. *)
Lemma after_wait_effect this clock h executor hs mode :
  (forall this', opens "s" mode (executor this')) ->
  let o := DatabaseManager.after_wait this clock h executor hs in
  host_after h o = h
  \/ exists os queue,
       stores h !! "s" = Some os
       /\ mode = readwrite
       /\ host_after h o = with_stores h (<["s" := apply_all os queue]> (stores h)).
Proof.
  intros Hopens. unfold DatabaseManager.after_wait.
  destruct (DatabaseManager._waitForDB this clock) as [this'|]; [|left; reflexivity].
  apply run_effect with (mode := mode), Hopens.
Qed.

(** X6.  [get], [list] and [getAll] never change the database: whatever the
    instance, the clock, the host and the key, the database after the
    operation is the database before it. *)
Theorem reads_leave_database this clock h key :
  host_after h (DatabaseManager.get this clock h key) = h
  /\ host_after h (DatabaseManager.list this clock h) = h
  /\ host_after h (DatabaseManager.getAll this clock h) = h.
Proof.
  split; [|split].
  - destruct (after_wait_effect this clock h (DatabaseManager.get_executor key)
                DatabaseManager.get_handlers readonly (opens_get key))
      as [H | (os & queue & _ & Hmode & _)]; [exact H | discriminate].
  - destruct (after_wait_effect this clock h DatabaseManager.list_executor
                DatabaseManager.list_handlers readonly opens_list)
      as [H | (os & queue & _ & Hmode & _)]; [exact H | discriminate].
  - destruct (after_wait_effect this clock h DatabaseManager.getAll_executor
                DatabaseManager.getAll_handlers readonly opens_getAll)
      as [H | (os & queue & _ & Hmode & _)]; [exact H | discriminate].
Qed.

(** ** What a caller's session does to the database *)

Lemma apply_all_keyPath queue : forall os, os_keyPath (apply_all os queue) = os_keyPath os.
Proof.
  unfold apply_all. induction queue as [|r rest IH]; intros os; simpl; [reflexivity|].
  rewrite IH. destruct r as [key|value|key| | |]; simpl; try reflexivity.
  - destruct (extract_key _ _); reflexivity.
  - destruct (to_key key); reflexivity.
Qed.

Lemma apply_all_ascending queue : forall os,
  ascending (os_records os) -> ascending (os_records (apply_all os queue)).
Proof.
  unfold apply_all. induction queue as [|r rest IH]; intros os H; simpl; [exact H|].
  apply IH, apply_request_ascending, H.
Qed.

Lemma records_put_keyed path recs k v :
  extract_key path v = Some k ->
  Forall (fun r => extract_key path (snd r) = Some (fst r)) recs ->
  Forall (fun r => extract_key path (snd r) = Some (fst r)) (records_put recs k v).
Proof.
  intros Hk. induction recs as [|[k1 v1] rest IH]; simpl; intros H.
  - constructor; [exact Hk | constructor].
  - inversion H as [|? ? Hhead Hrest]; subst.
    destruct (key_compare k k1); constructor; auto.
Qed.

Lemma records_delete_keyed path recs k :
  Forall (fun r => extract_key path (snd r) = Some (fst r)) recs ->
  Forall (fun r => extract_key path (snd r) = Some (fst r)) (records_delete recs k).
Proof.
  unfold records_delete. induction recs as [|r rest IH]; simpl; intros H; [constructor|].
  inversion H as [|? ? Hhead Hrest]; subst.
  destruct (negb (key_eqb k (fst r))); [constructor|]; auto.
Qed.

Lemma apply_request_keyed os r : keyed os -> keyed (snd (apply_request os r)).
Proof.
  unfold keyed. intros H. destruct r as [key|value|key| | |]; simpl; try exact H.
  - destruct (extract_key (os_keyPath os) value) eqn:E; simpl; [|exact H].
    apply records_put_keyed; assumption.
  - destruct (to_key key); simpl; [|exact H]. apply records_delete_keyed, H.
  - constructor.
Qed.

Lemma apply_all_keyed queue : forall os, keyed os -> keyed (apply_all os queue).
Proof.
  unfold apply_all. induction queue as [|r rest IH]; intros os H; simpl; [exact H|].
  apply IH, apply_request_keyed, H.
Qed.

(** Each operation leaves the database as it was or replaces the store
    ['s'] by what its requests made of it. *)
Lemma perform_effect this clock h c :
  host_after h (perform this clock h c) = h
  \/ exists os queue,
       stores h !! "s" = Some os
       /\ host_after h (perform this clock h c)
          = with_stores h (<["s" := apply_all os queue]> (stores h)).
Proof.
  assert (Hgen : forall executor hs mode,
             (forall this', opens "s" mode (executor this')) ->
             let o := DatabaseManager.after_wait this clock h executor hs in
             host_after h o = h
             \/ exists os queue,
                  stores h !! "s" = Some os
                  /\ host_after h o = with_stores h (<["s" := apply_all os queue]> (stores h))).
  { intros executor hs mode Hopens.
    destruct (after_wait_effect this clock h executor hs mode Hopens)
      as [H | (os & queue & Hos & _ & H)]; [left; exact H | right; eauto]. }
  destruct c as [key|key value|key| | | |entries]; simpl.
  - apply (Hgen _ _ readonly), opens_get.
  - unfold DatabaseManager.set.
    destruct (DatabaseManager.invalid_key key); [left; reflexivity|].
    destruct (DatabaseManager.is_undefined value); [left; reflexivity|].
    apply (Hgen _ _ readwrite), opens_set.
  - apply (Hgen _ _ readwrite), opens_delete.
  - apply (Hgen _ _ readonly), opens_list.
  - apply (Hgen _ _ readonly), opens_getAll.
  - apply (Hgen _ _ readwrite), opens_clear.
  - apply (Hgen _ _ readwrite), opens_setAll.
Qed.

Lemma kept_refl h : kept h h.
Proof. repeat split; auto. intros os Hos. exists os. auto. Qed.

Lemma kept_trans h1 h2 h3 : kept h1 h2 -> kept h2 h3 -> kept h1 h3.
Proof.
  intros (Ha & Hb & Hc & Hd & He) (Ha' & Hb' & Hc' & Hd' & He').
  repeat split.
  - intros name Hne. rewrite Ha', Ha by exact Hne. reflexivity.
  - congruence.
  - congruence.
  - auto.
  - intros os Hos. destruct (He os Hos) as (os2 & Hos2 & Hp2 & Hasc2 & Hk2).
    destruct (He' os2 Hos2) as (os3 & Hos3 & Hp3 & Hasc3 & Hk3).
    exists os3. repeat split; [exact Hos3 | congruence | auto | auto].
Qed.

Lemma perform_kept this clock h c : kept h (host_after h (perform this clock h c)).
Proof.
  destruct (perform_effect this clock h c) as [-> | (os & queue & Hos & ->)];
    [apply kept_refl|].
  repeat split; simpl.
  - intros name Hne. apply lookup_insert_ne. congruence.
  - congruence.
  - intros os0 Hos0. assert (os0 = os) as -> by congruence.
    exists (apply_all os queue). rewrite lookup_insert_eq.
    repeat split.
    + apply apply_all_keyPath.
    + apply apply_all_ascending.
    + apply apply_all_keyed.
Qed.

Lemma session_kept this clock cs : forall h, kept h (session this clock h cs).
Proof.
  induction cs as [|c rest IH]; intros h; simpl; [apply kept_refl|].
  eapply kept_trans; [apply perform_kept | apply IH].
Qed.

(** X7.  Whatever operations a caller awaits one after the other, on any
    instance and any host, they touch nothing but the records of the object
    store ['s']: every other store, the version of the database and the
    key path of ['s'] are as before, and no store is created or removed. *)
Theorem session_confined_to_s this clock h cs :
  let h' := session this clock h cs in
  (forall name, name <> "s" -> stores h' !! name = stores h !! name)
  /\ current_version h' = current_version h
  /\ (stores h !! "s" = None -> stores h' !! "s" = None)
  /\ (forall os, stores h !! "s" = Some os ->
        exists os', stores h' !! "s" = Some os' /\ os_keyPath os' = os_keyPath os).
Proof.
  destruct (session_kept this clock cs h) as (Ha & Hb & _ & Hd & He).
  repeat split; auto.
  intros os Hos. destruct (He os Hos) as (os' & Hos' & Hp & _). eauto.
Qed.

Lemma to_key_value : forall w k, to_key w = Some k -> key_to_value k = w.
Proof.
  fix IH 1. intros [| |b|n| |s|props|items] k; simpl; try discriminate.
  - intros [= <-]. reflexivity.
  - intros [= <-]. reflexivity.
  - match goal with |- option_map KArr ?all = _ -> _ => destruct all as [ks|] eqn:E end;
      simpl; [|discriminate].
    intros [= <-]. simpl. f_equal.
    revert ks E. induction items as [|x rest IHrest]; intros ks.
    + intros [= <-]. reflexivity.
    + destruct (to_key x) as [kx|] eqn:Ex; [|discriminate].
      match goal with |- match ?all with _ => _ end = _ -> _ =>
        destruct all as [ks'|] eqn:E' end; [|discriminate].
      intros [= <-]. simpl. rewrite (IH x kx Ex), (IHrest ks' eq_refl). reflexivity.
Qed.

(** Under the key path ['k'] a record's key is its [k] field. *)
Lemma keyed_k_field v k : extract_key "k" v = Some k -> get_prop v "k" = key_to_value k.
Proof.
  unfold extract_key, evaluate_key_path. simpl.
  destruct v as [| |b|n| |s|props|items]; try discriminate. simpl.
  destruct (own_property props "k") as [w|]; [|discriminate]. simpl.
  destruct w; try discriminate; intros H; symmetry; apply to_key_value; exact H.
Qed.

Lemma keyed_k_fields recs :
  Forall (fun r => extract_key "k" (snd r) = Some (fst r)) recs ->
  List.map (fun v => get_prop v "k") (List.map snd recs)
  = List.map (fun r => key_to_value (fst r)) recs.
Proof.
  induction 1 as [|r rest Hr Hrest IH]; simpl; [reflexivity|].
  rewrite (keyed_k_field _ _ Hr), IH. reflexivity.
Qed.

(** Under the key path ['k'] a record's key is the key of its [k] field. *)
Lemma keyed_k_key v k : extract_key "k" v = Some k -> to_key (get_prop v "k") = Some k.
Proof.
  unfold extract_key, evaluate_key_path. simpl.
  destruct v as [| |b|n| |s|props|items]; try discriminate. simpl.
  destruct (own_property props "k") as [w|]; [|discriminate]. simpl.
  destruct w; try discriminate; intros H; exact H.
Qed.

(** X8.  On a connected instance and a host that carries requests out,
    starting from a store ['s'] keyed by ['k'] with its records in key order
    under their own keys (as an empty store is): after any operations a
    caller awaited, [getAll()] resolves with records whose [k] fields are
    valid keys in strictly ascending order, and [list()] resolves with
    exactly those [k] fields, position by position. *)
Theorem list_lines_up_with_getAll this clock clock' h c os cs :
  DatabaseManager.db this = Some c ->
  healthy h = true ->
  stores h !! "s" = Some os ->
  os_keyPath os = "k" ->
  ascending (os_records os) ->
  keyed os ->
  let h' := session this clock h cs in
  exists recs,
    promise_of (DatabaseManager.getAll this clock' h') = Resolved (JArr (List.map snd recs))
    /\ promise_of (DatabaseManager.list this clock' h')
       = Resolved (JArr (List.map (fun v => get_prop v "k") (List.map snd recs)))
    /\ Forall (fun r => to_key (get_prop (snd r) "k") = Some (fst r)) recs
    /\ ascending recs.
Proof.
  intros Hdb Hh Hos Hpath Hasc Hkeyed h'.
  destruct (session_kept this clock cs h) as (_ & _ & Hhealthy & _ & He).
  destruct (He os Hos) as (os' & Hos' & Hp & Hasc' & Hk').
  fold h' in Hhealthy, Hos'. rewrite Hh in Hhealthy.
  specialize (Hk' Hkeyed). unfold keyed in Hk'. rewrite Hp, Hpath in Hk'.
  exists (os_records os').
  rewrite (getAll_run this clock' h' c os' Hdb Hos' Hhealthy).
  rewrite (list_run this clock' h' c os' Hdb Hos' Hhealthy).
  split; [reflexivity|]. split; [|split].
  - cbn. do 2 f_equal. symmetry. apply keyed_k_fields, Hk'.
  - eapply List.Forall_impl; [|exact Hk']. intros r Hr. apply keyed_k_key, Hr.
  - auto.
Qed.

Lemma list_lines_up_with_getAll_witness :
  exists recs,
    promise_of
      (DatabaseManager.list ready_instance []
         (session ready_instance [] ready_host
            [cmd_set (JStr "b") (JNum 2); cmd_set (JStr "a") (JNum 1);
             cmd_delete (JStr "c")]))
    = Resolved (JArr (List.map (fun v => get_prop v "k") (List.map snd recs)))
    /\ Forall (fun r => to_key (get_prop (snd r) "k") = Some (fst r)) recs
    /\ ascending recs.
Proof.
  destruct (list_lines_up_with_getAll ready_instance [] [] ready_host (mkConn "ldb" 1)
              (mkStore "k" [])
              [cmd_set (JStr "b") (JNum 2); cmd_set (JStr "a") (JNum 1);
               cmd_delete (JStr "c")]
              eq_refl eq_refl eq_refl eq_refl I (List.Forall_nil _))
    as (recs & _ & Hlist & Hkeys & Hasc).
  exists recs. repeat split; assumption.
Defined.

(** ** When the engine refuses *)

(** X9.  When the host fails a request, the operation rejects with its own
    error, carrying the error event as cause, and the database is
    unchanged: on a connected instance and a store ['s'] (keyed by ['k'] for
    [set]), for valid keys. *)
Theorem host_failure_rejects this clock h c recs key k s value :
  DatabaseManager.db this = Some c ->
  stores h !! "s" = Some (mkStore "k" recs) ->
  healthy h = false ->
  to_key key = Some k ->
  trim s <> "" ->
  value <> JUndefined ->
  let failed message r o :=
    promise_of o = Rejected (Error message (Some (cause_event (ev_error r))))
    /\ host_after h o = h in
  failed "Error getting the value from IndexedDB" (req_get key)
    (DatabaseManager.get this clock h key)
  /\ failed "Error setting the value in IndexedDB"
       (req_put (JObj [("k", JStr s); ("v", value)]))
       (DatabaseManager.set this clock h (JStr s) value)
  /\ failed "Error deleting the value from IndexedDB" (req_delete key)
       (DatabaseManager.delete this clock h key)
  /\ failed "Error listing keys from IndexedDB" req_getAllKeys
       (DatabaseManager.list this clock h)
  /\ failed "Error getting all values from IndexedDB" req_getAll
       (DatabaseManager.getAll this clock h)
  /\ failed "Error clearing the object store in IndexedDB" req_clear
       (DatabaseManager.clear this clock h).
Proof.
  intros Hdb Hst Hh Hk Hs Hvalue failed. subst failed.
  assert (Hinv : DatabaseManager.invalid_key (JStr s) = false).
  { unfold DatabaseManager.invalid_key. simpl. apply String.eqb_neq, Hs. }
  assert (Hdef : DatabaseManager.is_undefined value = false).
  { destruct value; simpl; congruence. }
  unfold DatabaseManager.set. rewrite Hinv, Hdef.
  repeat split;
    run_with (first [rewrite Hdb | rewrite Hst | rewrite Hh | rewrite Hk]);
    reflexivity.
Qed.

Lemma host_failure_rejects_witness :
  promise_of
    (DatabaseManager.list ready_instance []
       (mkHost (stores ready_host) (current_version ready_host) false))
  = Rejected (Error "Error listing keys from IndexedDB"
                (Some (cause_event (ev_error req_getAllKeys)))).
Proof.
  pose proof (host_failure_rejects ready_instance []
                (mkHost (stores ready_host) (current_version ready_host) false)
                (mkConn "ldb" 1) [] (JStr "a") (KStr "a") "a" JNull
                eq_refl eq_refl eq_refl eq_refl ltac:(discriminate) ltac:(discriminate))
    as (_ & _ & _ & [Hlist _] & _).
  exact Hlist.
Defined.

(** X10.  On a database that has no object store ['s'], every operation of
    a connected instance makes one engine call, the request for a
    transaction on ['s'], and is rejected with the engine's NotFoundError as
    it is; the database is unchanged. *)
Theorem missing_store_rejects this clock h c key value entries :
  DatabaseManager.db this = Some c ->
  stores h !! "s" = None ->
  DatabaseManager.invalid_key key = false ->
  DatabaseManager.is_undefined value = false ->
  let not_found mode o :=
    calls_of o = [call_transaction "s" mode]
    /\ promise_of o = Rejected (DOMException "NotFoundError")
    /\ host_after h o = h in
  not_found readonly (DatabaseManager.get this clock h key)
  /\ not_found readwrite (DatabaseManager.set this clock h key value)
  /\ not_found readwrite (DatabaseManager.delete this clock h key)
  /\ not_found readonly (DatabaseManager.list this clock h)
  /\ not_found readonly (DatabaseManager.getAll this clock h)
  /\ not_found readwrite (DatabaseManager.clear this clock h)
  /\ not_found readwrite (DatabaseManager.setAll this clock h entries).
Proof.
  intros Hdb Hst Hkey Hvalue not_found. subst not_found.
  unfold DatabaseManager.set. rewrite Hkey, Hvalue.
  repeat split; run_with (first [rewrite Hdb | rewrite Hst]); reflexivity.
Qed.

Lemma missing_store_rejects_witness :
  promise_of
    (DatabaseManager.clear (DatabaseManager.this_of readme_opened) []
       (DatabaseManager.host readme_opened))
  = Rejected (DOMException "NotFoundError").
Proof.
  pose proof (missing_store_rejects (DatabaseManager.this_of readme_opened) []
                (DatabaseManager.host readme_opened) (mkConn "myDatabase" 1)
                (JStr "a") JNull [] eq_refl eq_refl eq_refl eq_refl)
    as (_ & _ & _ & _ & _ & (_ & Hclear & _) & _).
  exact Hclear.
Defined.

(** X11.  [get] and [delete] do not check their key: with a key that is not
    a valid key of the engine ([undefined], [null], a boolean, [NaN], an
    object) the request throws when it is placed, and the operation is
    rejected with the engine's DataError as it is; the database is
    unchanged. *)
Theorem invalid_engine_key_rejects this clock h c os key :
  DatabaseManager.db this = Some c ->
  stores h !! "s" = Some os ->
  to_key key = None ->
  let data_error o :=
    promise_of o = Rejected (DOMException "DataError") /\ host_after h o = h in
  data_error (DatabaseManager.get this clock h key)
  /\ data_error (DatabaseManager.delete this clock h key).
Proof.
  intros Hdb Hst Hk data_error. subst data_error.
  repeat split; run_with (first [rewrite Hdb | rewrite Hst | rewrite Hk]);
    destruct (healthy h); try reflexivity; apply write_back, Hst.
Qed.

Lemma invalid_engine_key_rejects_witness :
  promise_of (DatabaseManager.get ready_instance [] ready_host JUndefined)
  = Rejected (DOMException "DataError").
Proof.
  pose proof (invalid_engine_key_rejects ready_instance [] ready_host (mkConn "ldb" 1)
                (mkStore "k" []) JUndefined eq_refl eq_refl eq_refl)
    as ([Hget _] & _).
  exact Hget.
Defined.

Lemma split_dots_first path : exists rest, split_dots path = first_identifier path :: rest.
Proof.
  unfold first_identifier. destruct path as [|ch path]; simpl; [eauto|].
  destruct (Ascii.eqb ch "."); [eauto|].
  destruct (split_dots path); simpl; eauto.
Qed.

Lemma extract_key_foreign path key value :
  first_identifier path <> "k" ->
  first_identifier path <> "v" ->
  extract_key path (JObj [("k", key); ("v", value)]) = None.
Proof.
  intros Hk Hv. unfold extract_key, evaluate_key_path.
  destruct (String.eqb path "") eqn:E; [reflexivity|].
  destruct (split_dots_first path) as [rest ->]. cbn -[String.eqb first_identifier].
  assert (String.eqb "k" (first_identifier path) = false) as ->
    by (apply String.eqb_neq; congruence).
  assert (String.eqb "v" (first_identifier path) = false) as ->
    by (apply String.eqb_neq; congruence).
  reflexivity.
Qed.

(** X12.  [set] always puts a record of the shape [{k, v}], whatever key
    path the store has: on a store ['s'] whose key path starts with an
    identifier other than [k] and [v] (such as ['id']), [set] with a key and
    a value that pass its checks is rejected with the engine's DataError,
    and nothing is stored. *)
Theorem set_on_foreign_key_path this clock h c os s value :
  DatabaseManager.db this = Some c ->
  stores h !! "s" = Some os ->
  first_identifier (os_keyPath os) <> "k" ->
  first_identifier (os_keyPath os) <> "v" ->
  trim s <> "" ->
  value <> JUndefined ->
  let o := DatabaseManager.set this clock h (JStr s) value in
  promise_of o = Rejected (DOMException "DataError")
  /\ host_after h o = h.
Proof.
  intros Hdb Hst Hk Hv Hs Hvalue o. subst o.
  assert (Hinv : DatabaseManager.invalid_key (JStr s) = false).
  { unfold DatabaseManager.invalid_key. simpl. apply String.eqb_neq, Hs. }
  assert (Hdef : DatabaseManager.is_undefined value = false).
  { destruct value; simpl; congruence. }
  pose proof (extract_key_foreign (os_keyPath os) (JStr s) value Hk Hv) as Hx.
  unfold DatabaseManager.set. rewrite Hinv, Hdef.
  split; run_with (first [rewrite Hdb | rewrite Hst | rewrite Hx]);
    destruct (healthy h); try reflexivity; apply write_back, Hst.
Qed.

Lemma set_on_foreign_key_path_witness :
  promise_of
    (DatabaseManager.set (DatabaseManager.this_of id_keyed_opened) []
       (DatabaseManager.host id_keyed_opened) (JStr "username") (JStr "johnDoe"))
  = Rejected (DOMException "DataError").
Proof.
  pose proof (set_on_foreign_key_path (DatabaseManager.this_of id_keyed_opened) []
                (DatabaseManager.host id_keyed_opened) (mkConn "ldb" 1) (mkStore "id" [])
                "username" (JStr "johnDoe") eq_refl eq_refl
                ltac:(discriminate) ltac:(discriminate) ltac:(discriminate)
                ltac:(discriminate))
    as [Hset _].
  exact Hset.
Defined.

(** ** setAll *)

Lemma extract_entry_record entry :
  extract_key "k" (entry_record entry) = to_key (get_prop entry "key").
Proof.
  unfold extract_key, evaluate_key_path, entry_record. simpl.
  destruct (get_prop entry "key"); reflexivity.
Qed.

Lemma entry_key_valid entry k :
  entry_key entry = Some k ->
  to_key (get_prop entry "key") = Some k
  /\ forall store rest,
       DatabaseManager.put_entries store (entry :: rest)
       = bind (os_put store (entry_record entry))
              (fun _ => DatabaseManager.put_entries store rest).
Proof.
  unfold entry_key. destruct entry; try discriminate; intros H; split; auto.
Qed.

(** The puts of entries the engine accepts join the queue in order. *)
Lemma put_entries_good store h good :
  h_mode store = readwrite ->
  os_keyPath (h_store store) = "k" ->
  Forall (fun e => is_Some (entry_key e)) good ->
  forall tail st t,
    active st = Some t ->
    DatabaseManager.put_entries store (good ++ tail) h st
    = DatabaseManager.put_entries store tail h
        (mkExec
           (calls st ++ List.map (fun e => call_request (req_put (entry_record e))) good)
           (Some (mkTxn (txn_store t) (txn_mode t)
                    (txn_queue t ++ List.map (fun e => req_put (entry_record e)) good)))).
Proof.
  intros Hmode Hpath. induction 1 as [|e good [k He] Hgood IH]; intros tail st t Hst.
  - simpl. rewrite !app_nil_r. destruct st as [cs act], t as [n m q]. simpl in *.
    rewrite Hst. reflexivity.
  - destruct (entry_key_valid e k He) as [Hk Hstep].
    change ((e :: good) ++ tail)%list with (e :: (good ++ tail))%list.
    rewrite Hstep. unfold bind at 1, os_put, os_request, bind, called. simpl.
    rewrite Hmode, Hpath, extract_entry_record, Hk, Hst.
    erewrite IH by reflexivity. simpl. rewrite <- !app_assoc. reflexivity.
Qed.

Lemma apply_all_puts entries : forall recs,
  Forall (fun e => is_Some (entry_key e)) entries ->
  apply_all (mkStore "k" recs) (List.map (fun e => req_put (entry_record e)) entries)
  = mkStore "k" (put_all recs entries).
Proof.
  unfold apply_all. induction entries as [|e rest IH]; intros recs H; simpl; [reflexivity|].
  inversion H as [|? ? [k He] Hrest]; subst.
  destruct (entry_key_valid e k He) as [Hk _].
  rewrite extract_entry_record, Hk, He. simpl. apply IH, Hrest.
Qed.

(** A promise that is rejected stays so. *)
Lemma last_all {A} (x : A) l : Forall (eq x) l -> List.last l x = x.
Proof.
  induction 1 as [|y l <- Hl IH]; [reflexivity|].
  destruct l; [reflexivity | exact IH].
Qed.

Lemma deliver_rejected hs e tl :
  final_promise (Rejected e) (deliver hs (Rejected e) tl) = Rejected e.
Proof.
  unfold final_promise. apply last_all.
  induction tl as [|[ev h] rest IH]; simpl; [constructor|].
  assert (Hfire : fire hs ev (Rejected e) = Rejected e) by (destruct ev; reflexivity).
  rewrite Hfire. constructor; [reflexivity | exact IH].
Qed.

(** With handlers on the transaction only, a sound host resolves the
    promise at the completion. *)
Lemma deliver_on_complete hs h name mode queue f :
  healthy h = true ->
  request_onsuccess hs = None ->
  txn_oncomplete hs = Some f ->
  forall view,
    final_promise Pending (deliver hs Pending (answer h name mode view queue))
    = f ev_complete.
Proof.
  intros Hh Hs Hc. unfold final_promise.
  induction queue as [|r rest IH]; intros view; simpl.
  - rewrite Hc. reflexivity.
  - rewrite Hh. destruct (apply_request view r) as [result view']. simpl.
    rewrite Hs. simpl. specialize (IH view').
    destruct (answer h name mode view' rest) as [|[ev h'] tl] eqn:E.
    + exfalso. exact (answer_nonempty _ _ _ _ _ E).
    + exact IH.
Qed.

(** What [setAll] amounts to when the entries up to some point are
    accepted: the executor's result on the rest decides the promise, the
    accepted puts are queued. *)
Lemma setAll_executor_good this h c recs good tail :
  DatabaseManager.db this = Some c ->
  stores h !! "s" = Some (mkStore "k" recs) ->
  Forall (fun e => is_Some (entry_key e)) good ->
  DatabaseManager.setAll_executor (good ++ tail) this h (mkExec [] None)
  = bind (DatabaseManager.put_entries
            (mkOs "s" readwrite (mkStore "k" recs)) tail)
         (fun _ => tx_commit (mkTx "s" readwrite)) h
      (mkExec
         ([call_transaction "s" readwrite; call_objectStore "s"]
          ++ List.map (fun e => call_request (req_put (entry_record e))) good)
         (Some (mkTxn "s" readwrite
                  (List.map (fun e => req_put (entry_record e)) good)))).
Proof.
  intros Hdb Hst Hgood.
  run_with (first [rewrite Hdb | rewrite Hst]).
  erewrite put_entries_good; [ | | | exact Hgood | ]; try reflexivity.
  cbn. reflexivity.
Qed.

(** [setAll] on entries the engine accepts: the promise and the database. *)
Lemma setAll_host this clock h c recs entries :
  DatabaseManager.db this = Some c ->
  stores h !! "s" = Some (mkStore "k" recs) ->
  healthy h = true ->
  Forall (fun e => is_Some (entry_key e)) entries ->
  let o := DatabaseManager.setAll this clock h entries in
  promise_of o = Resolved JUndefined
  /\ host_after h o
     = with_stores h (<["s" := mkStore "k" (put_all recs entries)]> (stores h)).
Proof.
  intros Hdb Hst Hh Hgood o. subst o.
  unfold DatabaseManager.setAll, DatabaseManager.after_wait.
  rewrite (wait_connected this clock c Hdb).
  pose proof (setAll_executor_good this h c recs entries [] Hdb Hst Hgood) as Hexec.
  rewrite app_nil_r in Hexec.
  split.
  - unfold run. rewrite Hexec. cbn -[lookup insert answer deliver]. rewrite Hst.
    apply (deliver_on_complete DatabaseManager.setAll_handlers h "s" readwrite _
             (DatabaseManager.resolve JUndefined) Hh eq_refl eq_refl).
  - rewrite host_after_run, Hexec. cbn -[lookup insert answer]. rewrite Hst.
    rewrite answer_last. unfold answer_final. rewrite Hh, (apply_all_puts _ _ Hgood).
    reflexivity.
Qed.

Lemma put_all_app before after : forall recs,
  put_all recs (before ++ after) = put_all (put_all recs before) after.
Proof.
  induction before as [|e rest IH]; intros recs; simpl; [reflexivity|].
  destruct (entry_key e); apply IH.
Qed.

Lemma put_all_other after k : forall recs,
  Forall (fun e => entry_key e <> Some k) after ->
  records_get (put_all recs after) k = records_get recs k.
Proof.
  induction after as [|e rest IH]; intros recs H; simpl; [reflexivity|].
  inversion H as [|? ? He Hrest]; subst.
  destruct (entry_key e) as [k'|] eqn:E; rewrite (IH _ Hrest); [|reflexivity].
  apply records_get_put_other. congruence.
Qed.

(** X13.  [setAll] with entries the engine accepts (each an object whose
    [key] is a valid key), on a connected instance, a store ['s'] keyed by
    ['k'] and a host that carries requests out: the promise resolves, and
    afterwards [get] of an entry's key reads the record of the last entry
    with that key and resolves with its [value] when that is truthy or
    [null]. *)
Theorem setAll_entries_are_retrievable this clock clock' h c recs before entry after k :
  DatabaseManager.db this = Some c ->
  stores h !! "s" = Some (mkStore "k" recs) ->
  healthy h = true ->
  Forall (fun e => is_Some (entry_key e)) (before ++ entry :: after) ->
  entry_key entry = Some k ->
  Forall (fun e => entry_key e <> Some k) after ->
  let o := DatabaseManager.setAll this clock h (before ++ entry :: after) in
  let read := DatabaseManager.get this clock' (host_after h o) (get_prop entry "key") in
  promise_of o = Resolved JUndefined
  /\ promise_of read
     = DatabaseManager.get_onsuccess
         (ev_success (req_get (get_prop entry "key")) (entry_record entry))
  /\ (truthy (get_prop entry "value") = true \/ get_prop entry "value" = JNull ->
      promise_of read = Resolved (get_prop entry "value")).
Proof.
  intros Hdb Hst Hh Hgood Hk Hlast o read.
  destruct (setAll_host this clock h c recs _ Hdb Hst Hh Hgood) as [Hres Hhost].
  fold o in Hres, Hhost.
  destruct (entry_key_valid entry k Hk) as [Hkey _].
  assert (Hread : promise_of read
                  = DatabaseManager.get_onsuccess
                      (ev_success (req_get (get_prop entry "key")) (entry_record entry))).
  { subst read.
    destruct (get_promise this clock' (host_after h o) c
                (mkStore "k" (put_all recs (before ++ entry :: after)))
                (get_prop entry "key") k Hdb) as [-> _]; auto.
    - rewrite Hhost, with_stores_lookup. apply lookup_insert_eq.
    - rewrite Hhost. exact Hh.
    - cbn [os_records]. rewrite put_all_app. simpl put_all. rewrite Hk.
      rewrite (put_all_other _ _ _ Hlast), records_get_put. reflexivity. }
  split; [exact Hres|]. split; [exact Hread|].
  intros Hv. rewrite Hread. apply get_onsuccess_record, Hv.
Qed.

Lemma setAll_entries_are_retrievable_witness :
  promise_of
    (DatabaseManager.get ready_instance []
       (host_after ready_host
          (DatabaseManager.setAll ready_instance [] ready_host
             [JObj [("key", JStr "name"); ("value", JStr "Alice")];
              JObj [("key", JStr "age"); ("value", JNum 30)];
              JObj [("key", JStr "job"); ("value", JStr "Developer")]]))
       (JStr "age"))
  = Resolved (JNum 30).
Proof.
  pose proof (setAll_entries_are_retrievable ready_instance [] [] ready_host
                (mkConn "ldb" 1) []
                [JObj [("key", JStr "name"); ("value", JStr "Alice")]]
                (JObj [("key", JStr "age"); ("value", JNum 30)])
                [JObj [("key", JStr "job"); ("value", JStr "Developer")]]
                (KStr "age") eq_refl eq_refl eq_refl) as H.
  destruct H as (_ & _ & Hread).
  - repeat constructor; eexists; reflexivity.
  - reflexivity.
  - repeat constructor; discriminate.
  - apply Hread. left. reflexivity.
Defined.

(** The first entry the engine does not accept ends the loop with a throw;
    the transaction stays as it was. *)
Lemma put_entries_bad store h bad rest :
  h_mode store = readwrite ->
  os_keyPath (h_store store) = "k" ->
  entry_key bad = None ->
  forall st, exists cs,
    DatabaseManager.put_entries store (bad :: rest) h st
    = (inl match bad with
           | JUndefined | JNull => TypeError "Cannot destructure property 'key'"
           | _ => DOMException "DataError"
           end,
       mkExec cs (active st)).
Proof.
  intros Hmode Hpath Hbad st.
  assert (Hput : to_key (get_prop bad "key") = None ->
                 exists cs,
                   bind (os_put store (entry_record bad))
                        (fun _ => DatabaseManager.put_entries store rest) h st
                   = (inl (DOMException "DataError"), mkExec cs (active st))).
  { intros Hk. eexists. unfold bind, os_put, os_request, bind, called. simpl.
    rewrite Hmode, Hpath, extract_entry_record, Hk. reflexivity. }
  unfold entry_key in Hbad.
  destruct bad; try exact (Hput Hbad);
    exists (calls st); destruct st; reflexivity.
Qed.

(** X14.  [setAll] is not all-or-nothing when a put throws: if the entries
    up to some point are accepted and the next one is not ([undefined] or
    [null], or an entry whose [key] is not a valid key), the promise is
    rejected with what was thrown (a TypeError, or the engine's DataError),
    and the entries before it are stored all the same. *)
Theorem setAll_keeps_entries_before_a_bad_one this clock h c recs good bad rest :
  DatabaseManager.db this = Some c ->
  stores h !! "s" = Some (mkStore "k" recs) ->
  healthy h = true ->
  Forall (fun e => is_Some (entry_key e)) good ->
  entry_key bad = None ->
  let o := DatabaseManager.setAll this clock h (good ++ bad :: rest) in
  promise_of o
  = Rejected match bad with
             | JUndefined | JNull => TypeError "Cannot destructure property 'key'"
             | _ => DOMException "DataError"
             end
  /\ host_after h o
     = with_stores h (<["s" := mkStore "k" (put_all recs good)]> (stores h)).
Proof.
  intros Hdb Hst Hh Hgood Hbad o. subst o.
  unfold DatabaseManager.setAll, DatabaseManager.after_wait.
  rewrite (wait_connected this clock c Hdb).
  pose proof (setAll_executor_good this h c recs good (bad :: rest) Hdb Hst Hgood) as Hexec.
  pose proof (put_entries_bad (mkOs "s" readwrite (mkStore "k" recs)) h bad rest
                eq_refl eq_refl Hbad) as Hthrow.
  split.
  - unfold run. rewrite Hexec. unfold bind.
    match goal with |- context [DatabaseManager.put_entries _ _ h ?st] =>
      destruct (Hthrow st) as [cs ->] end.
    cbn -[lookup insert answer deliver]. rewrite Hst. apply deliver_rejected.
  - rewrite host_after_run, Hexec. unfold bind.
    match goal with |- context [DatabaseManager.put_entries _ _ h ?st] =>
      destruct (Hthrow st) as [cs ->] end.
    cbn -[lookup insert answer]. rewrite Hst.
    rewrite answer_last. unfold answer_final. rewrite Hh, (apply_all_puts _ _ Hgood).
    reflexivity.
Qed.

Lemma setAll_keeps_entries_before_a_bad_one_witness :
  let entries := [JObj [("key", JStr "name"); ("value", JStr "Alice")];
                  JObj [("value", JNum 30)];
                  JObj [("key", JStr "job"); ("value", JStr "Developer")]] in
  let o := DatabaseManager.setAll ready_instance [] ready_host entries in
  promise_of o = Rejected (DOMException "DataError")
  /\ host_after ready_host o
     = with_stores ready_host
         (<["s" := mkStore "k"
                     [(KStr "name", JObj [("k", JStr "name"); ("v", JStr "Alice")])]]>
            (stores ready_host)).
Proof.
  apply (setAll_keeps_entries_before_a_bad_one ready_instance [] ready_host (mkConn "ldb" 1)
           [] [JObj [("key", JStr "name"); ("value", JStr "Alice")]]
           (JObj [("value", JNum 30)])
           [JObj [("key", JStr "job"); ("value", JStr "Developer")]]
           eq_refl eq_refl eq_refl).
  - repeat constructor. eexists. reflexivity.
  - reflexivity.
Defined.

(** X15.  [setAll] applies none of the checks of [set]: where [set] throws
    because the key is a blank string or the value is [undefined],
    [setAll] with the same key and value as its one entry resolves and
    stores the record, which a following [get] of the key reads. *)
Theorem setAll_applies_no_check this clock clock' h c recs s value :
  DatabaseManager.db this = Some c ->
  stores h !! "s" = Some (mkStore "k" recs) ->
  healthy h = true ->
  trim s = "" \/ value = JUndefined ->
  let o := DatabaseManager.setAll this clock h [JObj [("key", JStr s); ("value", value)]] in
  (exists e, DatabaseManager.set this clock h (JStr s) value = Thrown e)
  /\ promise_of o = Resolved JUndefined
  /\ stores (host_after h o) !! "s"
     = Some (mkStore "k" (records_put recs (KStr s) (JObj [("k", JStr s); ("v", value)])))
  /\ exists p rest,
       events_of (DatabaseManager.get this clock' (host_after h o) (JStr s))
       = mkStep (ev_success (req_get (JStr s)) (JObj [("k", JStr s); ("v", value)]))
           (host_after h o) p :: rest.
Proof.
  intros Hdb Hst Hh Hbad o.
  assert (Hgood : Forall (fun e => is_Some (entry_key e))
                    [JObj [("key", JStr s); ("value", value)]])
    by (repeat constructor; eexists; reflexivity).
  destruct (setAll_host this clock h c recs _ Hdb Hst Hh Hgood) as [Hres Hhost].
  fold o in Hres, Hhost.
  assert (Hst' : stores (host_after h o) !! "s"
                 = Some (mkStore "k"
                           (records_put recs (KStr s) (JObj [("k", JStr s); ("v", value)])))).
  { rewrite Hhost, with_stores_lookup. apply lookup_insert_eq. }
  split; [|split; [exact Hres | split; [exact Hst'|]]].
  - unfold DatabaseManager.set, DatabaseManager.invalid_key. simpl.
    destruct Hbad as [-> | ->]; simpl; [eauto|].
    destruct (String.eqb (trim s) ""); simpl; eauto.
  - erewrite (get_run this clock' _ c _ Hdb Hst'); [| rewrite Hhost; exact Hh | reflexivity].
    cbn. rewrite records_get_put. eauto.
Qed.

Lemma setAll_applies_no_check_witness :
  promise_of
    (DatabaseManager.setAll ready_instance [] ready_host
       [JObj [("key", JStr " "); ("value", JNum 1)]])
  = Resolved JUndefined.
Proof.
  pose proof (setAll_applies_no_check ready_instance [] [] ready_host (mkConn "ldb" 1) []
                " " (JNum 1) eq_refl eq_refl eq_refl (or_introl eq_refl))
    as (_ & Hres & _).
  exact Hres.
Defined.

(** ** Waiting for the connection *)

Lemma poll_first before now later c :
  Forall (fun t => DatabaseManager.db t = None) before ->
  DatabaseManager.db now = Some c ->
  DatabaseManager.poll (before ++ now :: later) = Some now.
Proof.
  intros Hbefore Hnow. induction Hbefore as [|t rest Ht Hrest IH]; simpl.
  - rewrite Hnow. reflexivity.
  - rewrite Ht. exact IH.
Qed.

(** X16.  An operation called while [db] is null runs at the first tick of
    the timer that finds [db] set, on the instance as it is then: it does
    exactly what the same call made at that moment does. *)
Theorem operation_runs_at_first_tick this before now later h c command :
  DatabaseManager.db this = None ->
  Forall (fun t => DatabaseManager.db t = None) before ->
  DatabaseManager.db now = Some c ->
  perform this (before ++ now :: later) h command = perform now [] h command.
Proof.
  intros Hthis Hbefore Hnow.
  assert (Hwait : DatabaseManager._waitForDB this (before ++ now :: later) = Some now).
  { unfold DatabaseManager._waitForDB. rewrite Hthis.
    apply (poll_first before now later c Hbefore Hnow). }
  assert (Hnow' : DatabaseManager._waitForDB now [] = Some now)
    by apply (wait_connected now [] c Hnow).
  destruct command; simpl;
    unfold DatabaseManager.get, DatabaseManager.set, DatabaseManager.delete,
      DatabaseManager.list, DatabaseManager.getAll, DatabaseManager.clear,
      DatabaseManager.setAll, DatabaseManager.after_wait;
    rewrite Hwait, Hnow'; reflexivity.
Qed.

Lemma operation_runs_at_first_tick_witness :
  promise_of
    (perform default_instance [default_instance; default_instance; ready_instance]
       one_record_host (cmd_get (JStr "username")))
  = Resolved (JStr "johnDoe").
Proof.
  pose proof (operation_runs_at_first_tick default_instance
                [default_instance; default_instance] ready_instance [] one_record_host
                (mkConn "ldb" 1) (cmd_get (JStr "username")) eq_refl
                ltac:(repeat constructor) eq_refl) as H.
  exact (eq_trans (f_equal promise_of H) eq_refl).
Defined.

(** ** init *)

(** In a browser with the standard factory, [init] with a version of at
    least 1 makes the open request and leaves its promise pending. *)
Lemma init_requests w f this h :
  indexedDB w = Some f ->
  0 < DatabaseManager.version this ->
  DatabaseManager.init (Some w) this h
  = DatabaseManager.mkInit this Pending h
      (Some (f, DatabaseManager.databaseName this, DatabaseManager.version this)) false.
Proof.
  intros Hf Hv. unfold DatabaseManager.init, factory_open. simpl. rewrite Hf. simpl.
  assert (Z.leb (DatabaseManager.version this) 0 = false) as -> by (apply Z.leb_gt, Hv).
  reflexivity.
Qed.

(** X17.  When the host cannot open the database, or holds it at a newer
    version, [init] (with a version the open call accepts) rejects with
    ['IndexedDB request error'] and the open error as cause; the instance
    and the database are as they were, so [db] stays null if it was. *)
Theorem init_open_error w f this h :
  indexedDB w = Some f ->
  0 < DatabaseManager.version this ->
  DatabaseManager.version this <= max_version ->
  healthy h = false \/ DatabaseManager.version this < current_version h ->
  let st := DatabaseManager.init_end (Some w) this h in
  DatabaseManager.promise st
  = Rejected (Error "IndexedDB request error" (Some cause_open_error))
  /\ DatabaseManager.this_of st = this
  /\ DatabaseManager.host st = h.
Proof.
  intros Hf Hv _ Hbad.
  unfold DatabaseManager.init_end, DatabaseManager.init_run.
  rewrite (init_requests w f this h Hf Hv). cbn -[Z.ltb].
  assert (Hscript : open_script h (DatabaseManager.databaseName this)
                      (DatabaseManager.version this) = [open_error]).
  { unfold open_script. destruct Hbad as [-> | Hlt]; [reflexivity|].
    destruct (healthy h); [|reflexivity]. simpl.
    assert (Z.ltb (DatabaseManager.version this) (current_version h) = true) as ->
      by (apply Z.ltb_lt, Hlt).
    reflexivity. }
  rewrite Hscript. repeat split.
Qed.

Lemma init_open_error_witness :
  DatabaseManager.promise
    (DatabaseManager.init_end browser default_instance (mkHost ∅ 0 false))
  = Rejected (Error "IndexedDB request error" (Some cause_open_error)).
Proof.
  pose proof (init_open_error (mkWindow (present (Some (Factory "indexedDB"))) None None None)
                (Factory "indexedDB") default_instance (mkHost ∅ 0 false)
                eq_refl eq_refl ltac:(discriminate) (or_introl eq_refl)) as [Hp _].
  exact Hp.
Defined.

(** The states of [init] on a host that has to create the database or
    upgrade it, with a valid key path and a free store name. *)
Lemma init_fresh_states w f this h :
  indexedDB w = Some f ->
  0 < DatabaseManager.version this ->
  healthy h = true ->
  current_version h < DatabaseManager.version this ->
  valid_key_path (DatabaseManager.keyPath this) = true ->
  stores h !! DatabaseManager.storeName this = None ->
  let c := mkConn (DatabaseManager.databaseName this) (DatabaseManager.version this) in
  let request := Some (f, DatabaseManager.databaseName this, DatabaseManager.version this) in
  let h' := {| stores := <[DatabaseManager.storeName this
                           := mkStore (DatabaseManager.keyPath this) []]> (stores h);
               current_version := DatabaseManager.version this;
               healthy := healthy h |} in
  DatabaseManager.init_run (Some w) this h
  = [DatabaseManager.mkInit this Pending h request false;
     DatabaseManager.mkInit (DatabaseManager.set_db this None) Pending h' request true;
     DatabaseManager.mkInit
       (DatabaseManager.set_db (DatabaseManager.set_db this None) (Some c))
       (Resolved JUndefined) h' request true;
     DatabaseManager.mkInit
       (DatabaseManager.set_ready
          (DatabaseManager.set_db
             (DatabaseManager.set_db (DatabaseManager.set_db this None) (Some c))
             (Some c)) true)
       (Resolved JUndefined) h' request true].
Proof.
  intros Hf Hv Hh Hlt Hpath Hstore.
  unfold DatabaseManager.init_run.
  rewrite (init_requests w f this h Hf Hv). cbn -[Z.ltb].
  assert (Hscript : open_script h (DatabaseManager.databaseName this)
                      (DatabaseManager.version this)
                    = let c := mkConn (DatabaseManager.databaseName this)
                                 (DatabaseManager.version this) in
                      [open_upgradeneeded c; upgrade_complete c; open_success c]).
  { unfold open_script. rewrite Hh. simpl.
    assert (Z.ltb (DatabaseManager.version this) (current_version h) = false) as ->
      by (apply Z.ltb_ge; lia).
    assert (Z.ltb (current_version h) (DatabaseManager.version this) = true) as ->
      by (apply Z.ltb_lt, Hlt).
    reflexivity. }
  rewrite Hscript. cbn -[lookup insert createObjectStore].
  rewrite (createObjectStore_fresh h _ _ _ Hpath Hstore).
  reflexivity.
Qed.

(** [init] on such a host, when every event has fired. *)
Lemma init_fresh w f this h :
  indexedDB w = Some f ->
  0 < DatabaseManager.version this ->
  healthy h = true ->
  current_version h < DatabaseManager.version this ->
  valid_key_path (DatabaseManager.keyPath this) = true ->
  stores h !! DatabaseManager.storeName this = None ->
  let st := DatabaseManager.init_end (Some w) this h in
  DatabaseManager.db (DatabaseManager.this_of st)
  = Some (mkConn (DatabaseManager.databaseName this) (DatabaseManager.version this))
  /\ DatabaseManager.ready (DatabaseManager.this_of st) = true
  /\ DatabaseManager.promise st = Resolved JUndefined
  /\ stores (DatabaseManager.host st) !! DatabaseManager.storeName this
     = Some (mkStore (DatabaseManager.keyPath this) [])
  /\ (forall name, name <> DatabaseManager.storeName this ->
        stores (DatabaseManager.host st) !! name = stores h !! name)
  /\ current_version (DatabaseManager.host st) = DatabaseManager.version this
  /\ healthy (DatabaseManager.host st) = true.
Proof.
  intros Hf Hv Hh Hlt Hpath Hstore.
  unfold DatabaseManager.init_end.
  rewrite (init_fresh_states w f this h Hf Hv Hh Hlt Hpath Hstore).
  cbn -[lookup insert]. repeat split; auto.
  - apply lookup_insert_eq.
  - intros name Hne. apply lookup_insert_ne. congruence.
Qed.

(** X18.  On a sound host that holds the database at an older version, or
    not at all, and has no store of the configured name, with a version the
    open call accepts and a valid key path: [init] goes through three
    events.  The upgrade handler creates an empty store of the configured
    name and key path, leaving the other stores as they were; the
    completion of that transaction sets [db] to the connection and resolves
    the promise, with [ready] still as it was; the success event that
    follows sets [ready] to true. *)
Theorem init_creates_configured_store w f this h :
  indexedDB w = Some f ->
  0 < DatabaseManager.version this ->
  DatabaseManager.version this <= max_version ->
  healthy h = true ->
  current_version h < DatabaseManager.version this ->
  valid_key_path (DatabaseManager.keyPath this) = true ->
  stores h !! DatabaseManager.storeName this = None ->
  let c := mkConn (DatabaseManager.databaseName this) (DatabaseManager.version this) in
  exists created connected opened,
    DatabaseManager.init_run (Some w) this h
    = [DatabaseManager.init (Some w) this h; created; connected; opened]
    /\ DatabaseManager.promise (DatabaseManager.init (Some w) this h) = Pending
    /\ (DatabaseManager.db (DatabaseManager.this_of created) = None
        /\ DatabaseManager.promise created = Pending
        /\ stores (DatabaseManager.host created) !! DatabaseManager.storeName this
           = Some (mkStore (DatabaseManager.keyPath this) [])
        /\ (forall name, name <> DatabaseManager.storeName this ->
              stores (DatabaseManager.host created) !! name = stores h !! name)
        /\ current_version (DatabaseManager.host created) = DatabaseManager.version this)
    /\ (DatabaseManager.db (DatabaseManager.this_of connected) = Some c
        /\ DatabaseManager.ready (DatabaseManager.this_of connected)
           = DatabaseManager.ready this
        /\ DatabaseManager.promise connected = Resolved JUndefined
        /\ DatabaseManager.host connected = DatabaseManager.host created)
    /\ (DatabaseManager.db (DatabaseManager.this_of opened) = Some c
        /\ DatabaseManager.ready (DatabaseManager.this_of opened) = true
        /\ DatabaseManager.promise opened = Resolved JUndefined
        /\ DatabaseManager.host opened = DatabaseManager.host created).
Proof.
  intros Hf Hv _ Hh Hlt Hpath Hstore c.
  rewrite (init_fresh_states w f this h Hf Hv Hh Hlt Hpath Hstore).
  rewrite (init_requests w f this h Hf Hv).
  do 3 eexists. split; [reflexivity|]. cbn -[lookup insert].
  repeat split; auto.
  - apply lookup_insert_eq.
  - intros name Hne. apply lookup_insert_ne. congruence.
Qed.

Lemma init_creates_configured_store_witness :
  exists created connected opened,
    DatabaseManager.init_run browser readme_instance fresh_host
    = [DatabaseManager.init browser readme_instance fresh_host; created; connected; opened]
    /\ stores (DatabaseManager.host created) !! "myStore" = Some (mkStore "id" [])
    /\ DatabaseManager.ready (DatabaseManager.this_of connected) = false
    /\ DatabaseManager.promise connected = Resolved JUndefined
    /\ DatabaseManager.ready (DatabaseManager.this_of opened) = true.
Proof.
  destruct (init_creates_configured_store
              (mkWindow (present (Some (Factory "indexedDB"))) None None None)
              (Factory "indexedDB") readme_instance fresh_host
              eq_refl eq_refl ltac:(discriminate) eq_refl eq_refl eq_refl eq_refl)
    as (created & connected & opened & Hrun & _ & (_ & _ & Hstore & _)
        & (_ & Hready & Hres & _) & (_ & Hready' & _)).
  exists created, connected, opened. repeat split; assumption.
Defined.

(** X19.  On a sound host that already holds the database at the
    configured version, [init] resolves with [db] set and [ready] true and
    changes nothing in the database: it creates no store, whether or not
    the configured one is there. *)
Theorem init_reopens_without_creating w f this h :
  indexedDB w = Some f ->
  0 < DatabaseManager.version this ->
  healthy h = true ->
  current_version h = DatabaseManager.version this ->
  let st := DatabaseManager.init_end (Some w) this h in
  DatabaseManager.db (DatabaseManager.this_of st)
  = Some (mkConn (DatabaseManager.databaseName this) (DatabaseManager.version this))
  /\ DatabaseManager.ready (DatabaseManager.this_of st) = true
  /\ DatabaseManager.promise st = Resolved JUndefined
  /\ DatabaseManager.host st = h.
Proof.
  intros Hf Hv Hh Hsame.
  unfold DatabaseManager.init_end, DatabaseManager.init_run.
  rewrite (init_requests w f this h Hf Hv). cbn -[Z.ltb].
  assert (Hscript : open_script h (DatabaseManager.databaseName this)
                      (DatabaseManager.version this)
                    = [open_success (mkConn (DatabaseManager.databaseName this)
                                       (DatabaseManager.version this))]).
  { unfold open_script. rewrite Hh, Hsame, Z.ltb_irrefl. reflexivity. }
  rewrite Hscript. repeat split.
Qed.

Lemma init_reopens_without_creating_witness :
  DatabaseManager.host
    (DatabaseManager.init_end browser default_instance (mkHost ∅ 1 true))
  = mkHost ∅ 1 true.
Proof.
  pose proof (init_reopens_without_creating
                (mkWindow (present (Some (Factory "indexedDB"))) None None None)
                (Factory "indexedDB") default_instance (mkHost ∅ 1 true)
                eq_refl eq_refl eq_refl eq_refl) as (_ & _ & _ & Hhost).
  exact Hhost.
Defined.

(** X20.  [isSupported] and the check of [init] are not the same test:
    [isSupported] asks whether [window] has a property [indexedDB], [init]
    whether one of four properties holds a factory.  Where
    [window.indexedDB] is a factory both agree: [isSupported] is true and
    [init] makes the open request.  Where the property is there with a
    falsy value and no vendor name holds a factory, [isSupported] is true
    and [init] rejects with ['IndexedDB not supported'].  Where the
    property is missing and [mozIndexedDB] holds a factory, [isSupported] is
    false and [init] makes the open request. *)
Theorem isSupported_versus_init w this h :
  0 < DatabaseManager.version this ->
  DatabaseManager.version this <= max_version ->
  let st := DatabaseManager.init (Some w) this h in
  let requested f :=
    DatabaseManager.promise st = Pending
    /\ DatabaseManager.request st
       = Some (f, DatabaseManager.databaseName this, DatabaseManager.version this) in
  (forall f, indexedDB w = Some f ->
     DatabaseManager.isSupported (Some w) = true /\ requested f)
  /\ (indexedDB_slot w = present None ->
      mozIndexedDB w = None -> webkitIndexedDB w = None -> msIndexedDB w = None ->
      DatabaseManager.isSupported (Some w) = true
      /\ DatabaseManager.promise st = Rejected (Error "IndexedDB not supported" None))
  /\ (forall f, indexedDB_slot w = absent -> mozIndexedDB w = Some f ->
       DatabaseManager.isSupported (Some w) = false /\ requested f).
Proof.
  intros Hv _ st requested. subst st requested.
  assert (Hopen : Z.leb (DatabaseManager.version this) 0 = false) by (apply Z.leb_gt, Hv).
  split; [|split].
  - intros f Hf. rewrite (init_requests w f this h Hf Hv). simpl.
    unfold indexedDB in Hf. destruct (indexedDB_slot w); [discriminate|]. auto.
  - intros Hslot H2 H3 H4.
    destruct (init_window_without_factory w this h) as [Hp _]; auto.
    { unfold indexedDB. rewrite Hslot. reflexivity. }
    simpl. rewrite Hslot. auto.
  - intros f Hslot Hmoz. unfold DatabaseManager.init, factory_open, indexedDB. simpl.
    rewrite Hslot, Hmoz. simpl. rewrite Hopen. auto.
Qed.

Lemma isSupported_versus_init_witness :
  DatabaseManager.isSupported (Some (mkWindow (present None) None None None)) = true
  /\ DatabaseManager.promise
       (DatabaseManager.init (Some (mkWindow (present None) None None None))
          default_instance fresh_host)
     = Rejected (Error "IndexedDB not supported" None).
Proof.
  pose proof (isSupported_versus_init (mkWindow (present None) None None None)
                default_instance fresh_host eq_refl ltac:(discriminate))
    as (_ & Hnull & _).
  exact (Hnull eq_refl eq_refl eq_refl eq_refl).
Defined.

(** X25.  On a sound host that holds the database at an older version and
    already has a store of the configured name, [init] fails: the upgrade
    handler sets [db] to null, [createObjectStore] throws, the upgrade is
    aborted, and the error event at the request rejects the promise with
    ['IndexedDB request error']; [ready] and the database are as they
    were. *)
Theorem init_fails_on_existing_store w f this h os :
  indexedDB w = Some f ->
  0 < DatabaseManager.version this ->
  DatabaseManager.version this <= max_version ->
  healthy h = true ->
  current_version h < DatabaseManager.version this ->
  stores h !! DatabaseManager.storeName this = Some os ->
  let st := DatabaseManager.init_end (Some w) this h in
  DatabaseManager.promise st
  = Rejected (Error "IndexedDB request error" (Some cause_open_error))
  /\ DatabaseManager.db (DatabaseManager.this_of st) = None
  /\ DatabaseManager.ready (DatabaseManager.this_of st) = DatabaseManager.ready this
  /\ DatabaseManager.host st = h.
Proof.
  intros Hf Hv _ Hh Hlt Hstore.
  unfold DatabaseManager.init_end, DatabaseManager.init_run.
  rewrite (init_requests w f this h Hf Hv). cbn -[Z.ltb].
  assert (Hscript : open_script h (DatabaseManager.databaseName this)
                      (DatabaseManager.version this)
                    = let c := mkConn (DatabaseManager.databaseName this)
                                 (DatabaseManager.version this) in
                      [open_upgradeneeded c; upgrade_complete c; open_success c]).
  { unfold open_script. rewrite Hh. simpl.
    assert (Z.ltb (DatabaseManager.version this) (current_version h) = false) as ->
      by (apply Z.ltb_ge; lia).
    assert (Z.ltb (current_version h) (DatabaseManager.version this) = true) as ->
      by (apply Z.ltb_lt, Hlt).
    reflexivity. }
  rewrite Hscript. cbn -[lookup insert createObjectStore].
  destruct (createObjectStore_throws h
              (mkConn (DatabaseManager.databaseName this) (DatabaseManager.version this))
              (DatabaseManager.storeName this) (DatabaseManager.keyPath this))
    as [e ->]; [right; eauto|].
  cbn. repeat split.
Qed.

Lemma init_fails_on_existing_store_witness :
  DatabaseManager.promise
    (DatabaseManager.init_end browser
       (DatabaseManager.constructor None (Some 2) None None) ready_host)
  = Rejected (Error "IndexedDB request error" (Some cause_open_error)).
Proof.
  pose proof (init_fails_on_existing_store
                (mkWindow (present (Some (Factory "indexedDB"))) None None None)
                (Factory "indexedDB")
                (DatabaseManager.constructor None (Some 2) None None) ready_host
                (mkStore "k" []) eq_refl eq_refl ltac:(discriminate) eq_refl eq_refl eq_refl)
    as [Hp _].
  exact Hp.
Defined.

(** ** Before the connection *)

Lemma poll_none clock :
  Forall (fun t => DatabaseManager.db t = None) clock -> DatabaseManager.poll clock = None.
Proof.
  induction 1 as [|t rest Ht Hrest IH]; simpl; [reflexivity|].
  rewrite Ht. exact IH.
Qed.

(** X21.  Constructing an instance opens nothing, and nothing is asked of
    the engine before [db] is set: on a newly constructed instance, while
    no tick of the timer finds [db] set, every operation makes no engine
    call and leaves the database as it is; its promise is pending, unless
    it is a [set] whose checks threw. *)
Theorem nothing_before_connection databaseName version storeName keyPath clock h command :
  Forall (fun t => DatabaseManager.db t = None) clock ->
  let this := DatabaseManager.constructor databaseName version storeName keyPath in
  let o := perform this clock h command in
  DatabaseManager.db this = None
  /\ calls_of o = []
  /\ host_after h o = h
  /\ (o = Waiting \/ exists key value e, command = cmd_set key value /\ o = Thrown e).
Proof.
  intros Hclock this o. subst o.
  assert (Hwait : DatabaseManager._waitForDB this clock = None).
  { unfold DatabaseManager._waitForDB. simpl. apply poll_none, Hclock. }
  split; [reflexivity|].
  destruct command as [key|key value|key| | | |entries]; simpl;
    unfold DatabaseManager.get, DatabaseManager.set, DatabaseManager.delete,
      DatabaseManager.list, DatabaseManager.getAll, DatabaseManager.clear,
      DatabaseManager.setAll, DatabaseManager.after_wait;
    rewrite ?Hwait; try (repeat split; left; reflexivity).
  destruct (DatabaseManager.invalid_key key);
    [|destruct (DatabaseManager.is_undefined value)];
    rewrite ?Hwait; repeat split; eauto 6.
Qed.

Lemma nothing_before_connection_witness :
  perform default_instance [default_instance; default_instance] fresh_host cmd_list
  = Waiting.
Proof.
  pose proof (nothing_before_connection None None None None
                [default_instance; default_instance] fresh_host cmd_list
                ltac:(repeat constructor)) as (_ & _ & _ & [H | (k & v & e & Hc & _)]).
  - exact H.
  - discriminate Hc.
Defined.

(** ** The instance the script attaches to [window] *)

(** X22.  In a browser the script attaches [new DatabaseManager()] to
    [window], not yet connected.  That instance is configured with the
    names the operations use: after its [init()] on a sound host with no
    database yet, [set(key, value)] followed by [get(key)] resolves with
    the value, for every string key whose trimmed form is not empty and
    every value that is truthy or [null].  Without a [window] nothing is
    attached. *)
Theorem global_instance_round_trip w f module_defined h s v :
  indexedDB w = Some f ->
  healthy h = true ->
  current_version h < 1 ->
  stores h !! "s" = None ->
  trim s <> "" ->
  truthy v = true \/ v = JNull ->
  window_databaseManager (load_script None module_defined) = None
  /\ exists this,
       window_databaseManager (load_script (Some w) module_defined) = Some this
       /\ DatabaseManager.db this = None
       /\ let st := DatabaseManager.init_end (Some w) this h in
          DatabaseManager.promise st = Resolved JUndefined
          /\ set_then_get (DatabaseManager.this_of st) [] (DatabaseManager.host st) (JStr s) v
             = Resolved v.
Proof.
  intros Hf Hh Hv Hs Hkey Hvalue. split; [reflexivity|].
  exists default_instance. split; [reflexivity|]. split; [reflexivity|].
  destruct (init_fresh w f default_instance h Hf eq_refl Hh Hv eq_refl Hs)
    as (Hdb & _ & Hres & Hstore & _ & _ & Hhealthy).
  cbv zeta. split; [exact Hres|].
  unfold set_then_get.
  apply (set_then_get_returns_aux _ [] [] _ _ [] s v Hdb Hstore Hhealthy Hkey Hvalue).
Qed.

Lemma global_instance_round_trip_witness :
  exists this,
    window_databaseManager (load_script browser true) = Some this
    /\ set_then_get
         (DatabaseManager.this_of (DatabaseManager.init_end browser this fresh_host)) []
         (DatabaseManager.host (DatabaseManager.init_end browser this fresh_host))
         (JStr "username") (JStr "johnDoe")
       = Resolved (JStr "johnDoe").
Proof.
  destruct (global_instance_round_trip
              (mkWindow (present (Some (Factory "indexedDB"))) None None None) (Factory "indexedDB")
              true fresh_host "username" (JStr "johnDoe")
              eq_refl eq_refl eq_refl eq_refl ltac:(discriminate) (or_introl eq_refl))
    as (_ & this & Hload & _ & _ & Hget).
  exists this. split; [exact Hload | exact Hget].
Defined.

(** ** When delete and clear resolve *)

(** X23.  Unlike [set], [delete] and [clear] resolve on the success of
    their request: the promise is resolved at the first event of the
    transaction, when other transactions still see the database as it was,
    and the completion event that follows finds it already resolved. *)
Theorem delete_and_clear_resolve_on_request this clock h c os key k :
  DatabaseManager.db this = Some c ->
  stores h !! "s" = Some os ->
  healthy h = true ->
  to_key key = Some k ->
  (exists h',
     events_of (DatabaseManager.delete this clock h key)
     = [mkStep (ev_success (req_delete key) JUndefined) h (Resolved JUndefined);
        mkStep ev_complete h' (Resolved JUndefined)])
  /\ (exists h',
        events_of (DatabaseManager.clear this clock h)
        = [mkStep (ev_success req_clear JUndefined) h (Resolved JUndefined);
           mkStep ev_complete h' (Resolved JUndefined)]).
Proof.
  intros Hdb Hst Hh Hk. split; eexists.
  - rewrite (delete_run this clock h c os Hdb Hst Hh key k Hk). reflexivity.
  - rewrite (clear_run this clock h c os Hdb Hst Hh). reflexivity.
Qed.

Lemma delete_and_clear_resolve_on_request_witness :
  exists h',
    events_of (DatabaseManager.clear ready_instance [] one_record_host)
    = [mkStep (ev_success req_clear JUndefined) one_record_host (Resolved JUndefined);
       mkStep ev_complete h' (Resolved JUndefined)].
Proof.
  destruct (delete_and_clear_resolve_on_request ready_instance [] one_record_host
              (mkConn "ldb" 1)
              (mkStore "k" [(KStr "username",
                             JObj [("k", JStr "username"); ("v", JStr "johnDoe")])])
              (JStr "username") (KStr "username") eq_refl eq_refl eq_refl eq_refl)
    as [_ [h' Hclear]].
  exists h'. exact Hclear.
Defined.

(** ** list after a write *)

Lemma records_put_has recs k v : In k (List.map fst (records_put recs k v)).
Proof.
  induction recs as [|[k1 v1] rest IH]; simpl; [auto|].
  destruct (key_compare k k1); simpl; auto.
Qed.

Lemma records_delete_has_not recs k : ~ In k (List.map fst (records_delete recs k)).
Proof.
  unfold records_delete. induction recs as [|[k1 v1] rest IH]; simpl; [auto|].
  destruct (key_eqb k k1) eqn:E; simpl; [exact IH|].
  intros [-> | H]; [|exact (IH H)].
  rewrite key_eqb_refl in E. discriminate.
Qed.

Lemma key_to_value_str k s : key_to_value k = JStr s -> k = KStr s.
Proof. destruct k; simpl; congruence. Qed.

(** X24.  [list()] follows the writes: after [set(key, value)] the keys it
    resolves with include the key, and after [delete(key)] they do not. *)
Theorem list_follows_writes this clock clock' h c recs s value :
  DatabaseManager.db this = Some c ->
  stores h !! "s" = Some (mkStore "k" recs) ->
  healthy h = true ->
  trim s <> "" ->
  value <> JUndefined ->
  let h1 := host_after h (DatabaseManager.set this clock h (JStr s) value) in
  let h2 := host_after h1 (DatabaseManager.delete this clock h1 (JStr s)) in
  (exists keys,
     promise_of (DatabaseManager.list this clock' h1) = Resolved (JArr keys)
     /\ In (JStr s) keys)
  /\ (exists keys,
        promise_of (DatabaseManager.list this clock' h2) = Resolved (JArr keys)
        /\ ~ In (JStr s) keys).
Proof.
  intros Hdb Hst Hh Hs Hvalue h1 h2.
  destruct (set_host this clock h c recs s value Hdb Hst Hh Hs Hvalue)
    as (_ & _ & Hst1 & Hh1).
  fold h1 in Hst1, Hh1.
  destruct (delete_host this clock h1 c _ (JStr s) (KStr s) Hdb Hst1 Hh1 eq_refl)
    as [Hst2 Hh2].
  fold h2 in Hst2, Hh2.
  split; eexists; (split; [eapply getAll_whole_records; eassumption|]).
  - cbn [os_records]. apply (in_map key_to_value _ (KStr s)), records_put_has.
  - cbn [os_records os_keyPath]. intros Hin.
    apply in_map_iff in Hin as (k & Hk & Hin).
    apply key_to_value_str in Hk as ->.
    exact (records_delete_has_not _ _ Hin).
Qed.

Lemma list_follows_writes_witness :
  exists keys,
    promise_of
      (DatabaseManager.list ready_instance []
         (host_after ready_host
            (DatabaseManager.set ready_instance [] ready_host (JStr "username")
               (JStr "johnDoe"))))
    = Resolved (JArr keys)
    /\ In (JStr "username") keys.
Proof.
  destruct (list_follows_writes ready_instance [] [] ready_host (mkConn "ldb" 1) []
              "username" (JStr "johnDoe") eq_refl eq_refl eq_refl
              ltac:(discriminate) ltac:(discriminate))
    as [Hset _].
  exact Hset.
Defined.
